(** * hatchet: the console tree renderer (hatchet/external/console.py)

    A shallow embedding of [ConsoleRenderer] and the properties of its
    rendering engine: the tree walker with its visited list, the metric
    normalisation bounds, the colour bucketing, the annotation overlay,
    the legend and the final encoding.

    Modelling conventions.
    - A Python [str] is the list of its code points ([str := list N]);
      [bytes] is a list of [Byte.byte].
    - Numeric table cells are IEEE-754 binary64 values, embedded as Rocq's
      primitive floats, whose operations are the machine's.
    - A Python exception is a value of [exn]; code that may raise returns
      [result].
    - [ColorMaps().get_colors], the package version and the shortest
      [repr] of a finite float live outside this module and are taken as
      parameters. *)

From Stdlib Require Import String Ascii ZArith NArith Bool Lia List.
From Stdlib Require Import Permutation.
From Stdlib Require Import Sorted.
From Stdlib Require Import Floats.
From Stdlib.Strings Require Byte.
Import ListNotations.

Set Implicit Arguments.
Set Warnings "-inexact-float,-register-all".

(* ------------------------------------------------------------------ *)
(** ** Strings, values and exceptions *)

Module Py.

Definition str := list N.
Definition bytes := list Byte.byte.

(** An ASCII literal as a Python string. *)
Definition u (s : string) : str :=
  List.map N_of_ascii (list_ascii_of_string s).

Definition str_eqb (a b : str) : bool :=
  if list_eq_dec N.eq_dec a b then true else false.

(** [x in xs] for a list of strings. *)
Definition str_in (x : str) (xs : list str) : bool :=
  existsb (str_eqb x) xs.

(** [sub in s] for strings: substring test. *)
Fixpoint is_prefix (p s : str) : bool :=
  match p, s with
  | [], _ => true
  | _ :: _, [] => false
  | a :: p', b :: s' => N.eqb a b && is_prefix p' s'
  end.

Fixpoint contains (sub s : str) : bool :=
  is_prefix sub s ||
  match s with
  | [] => false
  | _ :: s' => contains sub s'
  end.

(** Lexicographic order on code points, the order of [sorted] on strings. *)
Fixpoint str_leb (a b : str) : bool :=
  match a, b with
  | [], _ => true
  | _ :: _, [] => false
  | x :: a', y :: b' =>
      if N.ltb x y then true
      else if N.eqb x y then str_leb a' b' else false
  end.

(** A table cell, and more generally a Python value the renderer meets:
    a string, a number (a binary64 float) or [None]. *)
Inductive cell :=
| CStr (s : str)
| CNum (x : float)
| CNone.

Inductive exn :=
| KeyError (key : cell)
| LabelKeyError (label : Z)
| IndexError
| TypeError
| ValueError
| ZeroDivisionError
| AttributeError (attr : str)
| UnboundLocalError (var : str)
| UnicodeEncodeError.

Inductive result (A : Type) :=
| Ok (a : A)
| Raise (e : exn).

Arguments Ok {A} a.
Arguments Raise {A} e.

Definition bind {A B} (m : result A) (k : A -> result B) : result B :=
  match m with
  | Ok a => k a
  | Raise e => Raise e
  end.

Definition raises {A} (m : result A) : Prop :=
  exists e, m = Raise e.

End Py.

Import Py.

Declare Scope py_scope.
Delimit Scope py_scope with py.
Notation "x <- m ;; k" := (bind m (fun x => k))
  (at level 61, m at next level, right associativity) : py_scope.
Notation "' pat <- m ;; k" := (bind m (fun x => match x with pat => k end))
  (at level 61, pat pattern, m at next level, right associativity) : py_scope.
Open Scope py_scope.
Open Scope list_scope.

(* ------------------------------------------------------------------ *)
(** ** Built-ins of the language used by the renderer *)

Module Builtins.

(** [seq[i]] for a non-negative index. *)
Definition getitem {A} (l : list A) (i : nat) : result A :=
  match nth_error l i with
  | Some a => Ok a
  | None => Raise IndexError
  end.

(** [l.index(x)] on a list of strings. *)
Fixpoint list_index (x : str) (l : list str) : result nat :=
  match l with
  | [] => Raise ValueError
  | y :: l' => if str_eqb y x then Ok 0%nat
               else i <- list_index x l' ;; Ok (S i)
  end.

(** [d[k]] on a dict with string keys, as an association list. *)
Fixpoint dict_get {A} (d : list (str * A)) (k : str) : result A :=
  match d with
  | [] => Raise (KeyError (CStr k))
  | (k', v) :: d' => if str_eqb k' k then Ok v else dict_get d' k
  end.

(** [i % n] for non-negative [i]. *)
Definition py_mod (i n : nat) : result nat :=
  match n with
  | O => Raise ZeroDivisionError
  | _ => Ok (Nat.modulo i n)
  end.

(** [s[:n]] and [s[n:]] for non-negative [n]. *)
Definition slice_to {A} (n : nat) (s : list A) : list A := firstn n s.
Definition slice_from {A} (n : nat) (s : list A) : list A := skipn n s.

(** Stable insertion sort on a key, the behaviour of [sorted(xs, key=...)]. *)
Section Sorted.

Context {A : Type} (leb : A -> A -> bool).

Fixpoint insert (x : A) (l : list A) : list A :=
  match l with
  | [] => [x]
  | y :: l' => if leb x y then x :: y :: l' else y :: insert x l'
  end.

Definition sorted (l : list A) : list A :=
  fold_right insert [] l.

End Sorted.

(** [pandas.Series.unique]: first occurrences, in order. *)
Fixpoint unique (l : list str) : list str :=
  match l with
  | [] => []
  | x :: l' => x :: filter (fun y => negb (str_eqb y x)) (unique l')
  end.

(** Decimal digits of a natural number. *)
Fixpoint digits_of_uint (d : Decimal.uint) : str :=
  match d with
  | Decimal.Nil => []
  | Decimal.D0 d' => 48%N :: digits_of_uint d'
  | Decimal.D1 d' => 49%N :: digits_of_uint d'
  | Decimal.D2 d' => 50%N :: digits_of_uint d'
  | Decimal.D3 d' => 51%N :: digits_of_uint d'
  | Decimal.D4 d' => 52%N :: digits_of_uint d'
  | Decimal.D5 d' => 53%N :: digits_of_uint d'
  | Decimal.D6 d' => 54%N :: digits_of_uint d'
  | Decimal.D7 d' => 55%N :: digits_of_uint d'
  | Decimal.D8 d' => 56%N :: digits_of_uint d'
  | Decimal.D9 d' => 57%N :: digits_of_uint d'
  end.

Definition decimal (n : N) : str := digits_of_uint (N.to_uint n).

(** [text.rjust(width, fill)]. *)
Definition rjust (width : nat) (fill : N) (s : str) : str :=
  repeat fill (width - length s) ++ s.

(** Round-half-even quotient of two positive integers. *)
Definition div_half_even (n d : Z) : Z :=
  let q := (n / d)%Z in
  let r := (n mod d)%Z in
  match (2 * r ?= d)%Z with
  | Lt => q
  | Gt => (q + 1)%Z
  | Eq => if Z.even q then q else (q + 1)%Z
  end.

(** The digits of [|x| * 10^p], correctly rounded, for a finite non-zero
    [x = m * 2^e]. *)
Definition scaled_digits (p : nat) (m : positive) (e : Z) : Z :=
  let n := (Zpos m * 10 ^ Z.of_nat p)%Z in
  match e with
  | Z0 => n
  | Zpos _ => (n * 2 ^ e)%Z
  | Zneg _ => div_half_even n (2 ^ (- e))
  end.

(** Place the decimal point [p] digits from the right. *)
Definition point (p : nat) (scaled : Z) : str :=
  let ds := rjust (S p) 48%N (decimal (Z.to_N scaled)) in
  let k := (length ds - p)%nat in
  match p with
  | O => ds
  | _ => firstn k ds ++ u "." ++ skipn k ds
  end.

(** [format(x, ".{p}f")] for a float [x] and [p >= 0]. *)
Definition fixed (p : nat) (x : float) : str :=
  match Prim2SF x with
  | S754_nan => u "nan"
  | S754_infinity s => if s then u "-inf" else u "inf"
  | S754_zero s => (if s then u "-" else []) ++ point p 0
  | S754_finite s m e =>
      (if s then u "-" else []) ++ point p (scaled_digits p m e)
  end.

(** [text.encode("utf-8")]: surrogates cannot be encoded. *)
Definition b8 (n : N) : Byte.byte :=
  match Byte.of_N n with
  | Some b => b
  | None => Byte.x00
  end.

Definition utf8_char (c : N) : result bytes :=
  if (c <? 0x80)%N then Ok [b8 c]
  else if (c <? 0x800)%N then
    Ok [b8 (N.lor 0xC0 (N.shiftr c 6));
        b8 (N.lor 0x80 (N.land c 0x3F))]
  else if (c <? 0x10000)%N then
    if ((0xD800 <=? c) && (c <=? 0xDFFF))%N then Raise UnicodeEncodeError
    else
      Ok [b8 (N.lor 0xE0 (N.shiftr c 12));
          b8 (N.lor 0x80 (N.land (N.shiftr c 6) 0x3F));
          b8 (N.lor 0x80 (N.land c 0x3F))]
  else if (c <? 0x110000)%N then
    Ok [b8 (N.lor 0xF0 (N.shiftr c 18));
        b8 (N.lor 0x80 (N.land (N.shiftr c 12) 0x3F));
        b8 (N.lor 0x80 (N.land (N.shiftr c 6) 0x3F));
        b8 (N.lor 0x80 (N.land c 0x3F))]
  else Raise UnicodeEncodeError.

Fixpoint encode_utf8 (s : str) : result bytes :=
  match s with
  | [] => Ok []
  | c :: s' =>
      b <- utf8_char c ;;
      bs <- encode_utf8 s' ;;
      Ok (b ++ bs)
  end.


End Builtins.

Import Builtins.

(* ------------------------------------------------------------------ *)
(** ** The metric table and the graph *)

Module Table.

(** A row label: the node (by its [_hatchet_nid]) and, when the index has
    those levels, the rank and the thread. *)
Record key := Key {
  k_node : Z;
  k_rank : option Z;
  k_thread : option Z
}.

Definition opt_eqb (a b : option Z) : bool :=
  match a, b with
  | Some x, Some y => Z.eqb x y
  | None, None => true
  | _, _ => false
  end.

Definition key_eqb (a b : key) : bool :=
  Z.eqb (k_node a) (k_node b)
  && opt_eqb (k_rank a) (k_rank b)
  && opt_eqb (k_thread a) (k_thread b).

(** A pandas DataFrame, as far as the renderer looks at it: the names of
    the index levels, the column names, the row labels and the cells. *)
Record DataFrame := {
  index_names : list str;
  columns : list str;
  index : list key;
  cells : key -> str -> cell
}.

(** [dataframe.loc[k, col]] *)
Definition loc (df : DataFrame) (k : key) (col : str) : result cell :=
  if negb (existsb (key_eqb k) (index df)) then Raise (LabelKeyError (k_node k))
  else if negb (str_in col (columns df)) then Raise (KeyError (CStr col))
  else Ok (cells df k col).

(** [dataframe[col]] *)
Definition column (df : DataFrame) (col : str) : result (list cell) :=
  if str_in col (columns df)
  then Ok (List.map (fun k => cells df k col) (index df))
  else Raise (KeyError (CStr col)).

(** [dataframe.xs(rank, level=1)[col]]: the rows of one rank. *)
Definition xs (df : DataFrame) (rank : Z) (col : str) : result (list cell) :=
  match filter (fun k => opt_eqb (k_rank k) (Some rank)) (index df) with
  | [] => Raise (LabelKeyError rank)
  | rows =>
      if str_in col (columns df)
      then Ok (List.map (fun k => cells df k col) rows)
      else Raise (KeyError (CStr col))
  end.

End Table.

Import Table.

(** A graph node. The graph is acyclic; nodes compare by [_hatchet_nid],
    which tells one node from another, and a node shared by two parents
    occurs under both. *)
Inductive Node := mkNode {
  _hatchet_nid : Z;
  _depth : Z;
  children : list Node
}.

(* ------------------------------------------------------------------ *)
(** ** Colour schemes: [colors_enabled] and [colors_disabled] *)

Module colors.

Record t := {
  colormap : list str;
  blue : str;
  cyan : str;
  bg_white_255 : str;
  dark_gray_255 : str;
  left : str;
  right : str;
  faint : str;
  end_ : str
}.

End colors.

(** The escape character, [\033]. *)
Definition ESC : str := [27%N].

Definition colors_enabled (palette : list str) : colors.t := {|
  colors.colormap := palette;
  colors.blue := ESC ++ u "[34m";
  colors.cyan := ESC ++ u "[36m";
  colors.bg_white_255 := ESC ++ u "[48;5;246m";
  colors.dark_gray_255 := ESC ++ u "[38;5;232m";
  colors.left := ESC ++ u "[38;5;160m";
  colors.right := ESC ++ u "[38;5;28m";
  colors.faint := ESC ++ u "[2m";
  colors.end_ := ESC ++ u "[0m"
|}.

(** [colors_disabled]: seven empty palette entries, and the empty string
    for every other attribute ([__getattr__]). *)
Definition colors_disabled : colors.t := {|
  colors.colormap := [[]; []; []; []; []; []; []];
  colors.blue := [];
  colors.cyan := [];
  colors.bg_white_255 := [];
  colors.dark_gray_255 := [];
  colors.left := [];
  colors.right := [];
  colors.faint := [];
  colors.end_ := []
|}.

(* ------------------------------------------------------------------ *)
(** ** Arguments of [render] *)

Inductive metric_arg :=
| MetricStr (s : str)
| MetricList (l : list str).

(** [colormap_annotations]: absent, a palette name, a list of colours, or
    a value-to-colour dict. *)
Inductive cmap_ann :=
| CA_None
| CA_Str (s : str)
| CA_List (l : list str)
| CA_Dict (d : list (str * str)).

Definition truthy_cmap (c : cmap_ann) : bool :=
  match c with
  | CA_None => false
  | CA_Str [] => false
  | CA_List [] => false
  | CA_Dict [] => false
  | _ => true
  end.

Definition truthy_str (s : option str) : bool :=
  match s with
  | Some (_ :: _) => true
  | _ => false
  end.

(** Truth value of an optional number: [None] and zeros are false. *)
Definition truthy_num (x : option float) : bool :=
  match x with
  | Some v => negb (v =? 0)%float
  | None => false
  end.

Record kwargs := {
  render_header : bool;
  metric_column : metric_arg;
  annotation_column : option str;
  precision : Z;
  name_column : str;
  expand_name : bool;
  context_column : option str;
  rank : Z;
  thread : Z;
  depth : Z;
  highlight_name : bool;
  colormap_name : str;
  invert_colormap : bool;
  colormap_annotations : cmap_ann;
  min_value : option float;
  max_value : option float
}.

(** The value of [self.colors_annotations_mapping]. *)
Inductive ann_mapping :=
| MapList (l : list str)
| MapDict (d : list (str * str)).

(** The attributes of the renderer that stay fixed during the traversal:
    those given at construction, the arguments of the call, and what
    [render] resolves from them before the first node. An attribute that
    the call leaves unset is [None]. *)
Record Self := {
  unicode : bool;
  color : bool;
  kw : kwargs;
  colors_ : colors.t;
  colors_annotations : option colors.t;
  colors_annotations_mapping : option ann_mapping;
  primary_metric : str;
  second_metric : option str;
  max_metric : float;
  min_metric : float
}.

(** The attributes the traversal changes: the visited list, and whether
    [self.temporal_symbols] has been assigned. *)
Record Mut := {
  visited : list Z;
  temporal_symbols_set : bool
}.

(** What [render] returns: a [str], or [bytes]. *)
Inductive rendered :=
| Text (s : str)
| Encoded (b : bytes).

(* ------------------------------------------------------------------ *)
(** ** ConsoleRenderer *)

Section ConsoleRenderer.

(** [__version__] of the package. *)
Variable version : str.
(** [ColorMaps().get_colors(colormap, invert_colormap)]. *)
Variable get_colors : cmap_ann -> bool -> result (list str).
(** [repr] of a finite float, which is what [str] gives. *)
Variable float_repr : float -> str.

(** [str(value)] *)
Definition py_str (c : cell) : str :=
  match c with
  | CStr s => s
  | CNone => u "None"
  | CNum x =>
      match Prim2SF x with
      | S754_nan => u "nan"
      | S754_infinity s => if s then u "-inf" else u "inf"
      | _ => float_repr x
      end
  end.

(** [text.join(lines)] *)
Fixpoint join (sep : str) (lines : list str) : str :=
  match lines with
  | [] => []
  | [l] => l
  | l :: ls => l ++ sep ++ join sep ls
  end.

Definition NL : str := [10%N].

Definition render_preamble : str :=
  join NL
    [ u "    __          __       __         __ ";
      u "   / /_  ____ _/ /______/ /_  ___  / /_";
      u "  / __ \/ __ `/ __/ ___/ __ \/ _ \/ __/";
      u " / / / / /_/ / /_/ /__/ / / /  __/ /_  ";
      u "/_/ /_/\__,_/\__/\___/_/ /_/\___/\__/  "
        ++ rjust 2 32%N (u "v" ++ version);
      [];
      [] ].

(** [self.lr_arrows] *)
Definition arrow_left (self : Self) : str :=
  if unicode self then [9664%N; 32%N] else u "< ".
Definition arrow_right (self : Self) : str :=
  if unicode self then [9654%N; 32%N] else u "> ".

(** The glyph table [indents] of [render_frame]. *)
Definition indent_branch (self : Self) : str :=
  if unicode self then [9500%N; 9472%N; 32%N] else u "|- ".
Definition indent_vertical (self : Self) : str :=
  if unicode self then [9474%N; 32%N; 32%N] else u "|  ".
Definition indent_last (self : Self) : str :=
  if unicode self then [9492%N; 9472%N; 32%N] else u "`- ".
Definition indent_blank (self : Self) : str := u "   ".

(** The normalised position of a metric between the resolved bounds. *)
Definition proportion_of_total (self : Self) (metric : float) : float :=
  let metric_range := (max_metric self - min_metric self)%float in
  if negb (metric_range =? 0)%float
  then ((metric - min_metric self) / metric_range)%float
  else (metric / 1)%float.

Definition _ansi_color_for_metric (self : Self) (metric : float)
  : result str :=
  let proportion_of_total := proportion_of_total self metric in
  if (0.9 <? proportion_of_total)%float then
    getitem (colors.colormap (colors_ self)) 0
  else if (0.7 <? proportion_of_total)%float then
    getitem (colors.colormap (colors_ self)) 1
  else if (0.5 <? proportion_of_total)%float then
    getitem (colors.colormap (colors_ self)) 2
  else if (0.3 <? proportion_of_total)%float then
    getitem (colors.colormap (colors_ self)) 3
  else if (0.1 <? proportion_of_total)%float then
    getitem (colors.colormap (colors_ self)) 4
  else if (0 <=? proportion_of_total)%float then
    getitem (colors.colormap (colors_ self)) 5
  else Ok (colors.blue (colors_ self)).

Definition _ansi_color_for_name (self : Self) (node_name : str) : str :=
  if negb (highlight_name (kw self)) then []
  else if contains (u "<unknown procedure>") node_name
          || contains (u "<unknown file>") node_name
  then []
  else colors.bg_white_255 (colors_ self)
       ++ colors.dark_gray_255 (colors_ self).

(** Arithmetic on a cell: only numbers take part. *)
Definition as_float (c : cell) : result float :=
  match c with
  | CNum x => Ok x
  | _ => Raise TypeError
  end.

Definition as_str (c : cell) : result str :=
  match c with
  | CStr s => Ok s
  | _ => Raise TypeError
  end.

(** [format(x, ".{precision}f")] *)
Definition format_f (precision : Z) (x : float) : result str :=
  if (precision <? 0)%Z then Raise ValueError
  else Ok (fixed (Z.to_nat precision) x).

(** The same on an arbitrary cell. *)
Definition format_cell_f (precision : Z) (c : cell) : result str :=
  match c with
  | CNum x => format_f precision x
  | CStr _ => Raise ValueError
  | CNone => Raise TypeError
  end.

(** [self.temporal_symbols] *)
Definition temporal_symbols : list (str * str) :=
  [ (u "none", []);
    (u "constant", [8594%N]);
    (u "phased", [10547%N]);
    (u "dynamic", [8669%N]);
    (u "sporadic", [8605%N]) ].

(** [self.temporal_symbols[pattern_metric]] *)
Definition temporal_symbol (pattern_metric : cell) : result str :=
  match pattern_metric with
  | CStr s => dict_get temporal_symbols s
  | other => Raise (KeyError other)
  end.

Definition get_attr {A} (name : string) (a : option A) : result A :=
  match a with
  | Some v => Ok v
  | None => Raise (AttributeError (u name))
  end.

(** [palette[mapping.index(value) % len(palette)]] *)
Definition palette_color (palette mapping : list str) (value : str)
  : result str :=
  i <- list_index value mapping ;;
  j <- py_mod i (List.length palette) ;;
  getitem palette j.

(** The row label of a node ([df_index]). *)
Definition df_index (self : Self) (df : DataFrame) (nid : Z) : key :=
  let has_rank := str_in (u "rank") (index_names df) in
  let has_thread := str_in (u "thread") (index_names df) in
  {| k_node := nid;
     k_rank := if has_rank then Some (rank (kw self)) else None;
     k_thread := if has_thread then Some (thread (kw self)) else None |}.

(** The coloured, formatted primary metric, followed by the secondary
    metric when there is one. *)
Definition metric_text (self : Self) (df : DataFrame) (k : key)
  : result str :=
  c <- loc df k (primary_metric self) ;;
  node_metric <- as_float c ;;
  col <- _ansi_color_for_metric self node_metric ;;
  txt <- format_f (precision (kw self)) node_metric ;;
  let metric_str := col ++ txt ++ colors.end_ (colors_ self) in
  match second_metric self with
  | Some second =>
      c2 <- loc df k second ;;
      txt2 <- format_cell_f (precision (kw self)) c2 ;;
      Ok (metric_str ++ u " " ++ colors.faint (colors_ self)
            ++ txt2 ++ colors.end_ (colors_ self))
  | None => Ok metric_str
  end.

(** The annotation overlay: what is appended to [metric_str] for the
    annotation column [ann], and whether [self.temporal_symbols] was
    assigned on the way. *)
Definition annotation_text (self : Self) (df : DataFrame) (k : key)
    (ann : str) : result (str * bool) :=
  c <- loc df k ann ;;
  let annotation_content := py_str c in
  if contains (u "_pattern") ann then
    pattern_metric <- loc df k ann ;;
    annotation_content <- temporal_symbol pattern_metric ;;
    if truthy_cmap (colormap_annotations (kw self)) then
      col <- column df ann ;;
      let mapping := unique (List.map py_str col) in
      coloring_content <- as_str pattern_metric ;;
      if negb (str_eqb coloring_content (u "none")) then
        ca <- get_attr "colors_annotations" (colors_annotations self) ;;
        color_annotation <-
          palette_color (colors.colormap ca) mapping coloring_content ;;
        Ok (u " " ++ color_annotation ++ annotation_content
              ++ colors.end_ ca, true)
      else Ok (annotation_content, true)
    else Ok (u " " ++ annotation_content, true)
  else if truthy_cmap (colormap_annotations (kw self)) then
    color_annotation <-
      match colormap_annotations (kw self) with
      | CA_Dict _ =>
          m <- get_attr "colors_annotations_mapping"
                 (colors_annotations_mapping self) ;;
          match m with
          | MapDict d => dict_get d annotation_content
          | MapList _ => Raise TypeError
          end
      | _ =>
          ca <- get_attr "colors_annotations" (colors_annotations self) ;;
          m <- get_attr "colors_annotations_mapping"
                 (colors_annotations_mapping self) ;;
          match m with
          | MapList l => palette_color (colors.colormap ca) l annotation_content
          | MapDict _ => Raise (AttributeError (u "index"))
          end
      end ;;
    ca <- get_attr "colors_annotations" (colors_annotations self) ;;
    Ok (u " [" ++ color_annotation ++ annotation_content
          ++ colors.end_ ca ++ u "]", false)
  else Ok (u " [" ++ annotation_content ++ u "]", false).

(** The display name: collapsed to 18 + 3 + 18 characters when it is
    longer than 39 and [expand_name] is off. *)
Definition display_name (self : Self) (node_name : str) : str :=
  if negb (expand_name (kw self)) then
    if (39 <? List.length node_name)%nat then
      slice_to 18 node_name ++ u "..."
        ++ slice_from (List.length node_name - 18) node_name
    else node_name
  else node_name.

(** [lr_decorator] after the three-way test on the diff marker; [None]
    when no branch assigned it. *)
Definition lr_decorator (self : Self) (left_or_right : cell)
  : option str :=
  match left_or_right with
  | CNum m =>
      if (m =? 0)%float then Some []
      else if (m =? 1)%float then
        Some (u " " ++ colors.left (colors_ self) ++ arrow_left self
                ++ colors.end_ (colors_ self))
      else if (m =? 2)%float then
        Some (u " " ++ colors.right (colors_ self) ++ arrow_right self
                ++ colors.end_ (colors_ self))
      else None
  | _ => None
  end.

(** [metric_str] after the annotation overlay, when an annotation column
    is configured. *)
Definition annotate (self : Self) (df : DataFrame) (k : key)
    (metric_str : str) (m : Mut) : result (str * Mut) :=
  match annotation_column (kw self) with
  | Some ann =>
      '(a, set) <- annotation_text self df k ann ;;
      Ok (metric_str ++ a,
          {| visited := visited m;
             temporal_symbols_set := temporal_symbols_set m || set |})
  | None => Ok (metric_str, m)
  end.

(** [name_str]: the display name in its highlight colour. *)
Definition name_text (self : Self) (df : DataFrame) (k : key)
  : result str :=
  cn <- loc df k (name_column (kw self)) ;;
  node_name <- as_str cn ;;
  let node_name := display_name self node_name in
  Ok (_ansi_color_for_name self node_name ++ node_name
        ++ colors.end_ (colors_ self)).

(** The line of one node: everything [render_frame] does before it looks
    at the visited list. *)
Definition frame_line (self : Self) (df : DataFrame) (nid : Z)
    (indent : str) (m : Mut) : result (str * Mut) :=
  let k := df_index self df nid in
  metric_str <- metric_text self df k ;;
  '(metric_str, m) <- annotate self df k metric_str m ;;
  name_str <- name_text self df k ;;
  decorator <-
    (if str_in (u "_missing_node") (columns df) then
       left_or_right <- loc df k (u "_missing_node") ;;
       Ok (lr_decorator self left_or_right)
     else Ok None) ;;
  let result := indent ++ metric_str ++ u " " ++ name_str in
  result <-
    (if str_in (u "_missing_node") (columns df) then
       match decorator with
       | Some d => Ok (result ++ d)
       | None => Raise (UnboundLocalError (u "lr_decorator"))
       end
     else Ok result) ;;
  match context_column (kw self) with
  | Some context =>
      if str_in context (columns df) then
        c <- loc df k context ;;
        Ok (result ++ u " " ++ colors.faint (colors_ self) ++ py_str c
              ++ colors.end_ (colors_ self) ++ NL, m)
      else Ok (result ++ NL, m)
  | None => Ok (result ++ NL, m)
  end.

(** A call of [render_frame] on one child, still waiting for its indent
    strings and the current state. *)
Definition frame : Type := str -> str -> Mut -> result (str * Mut).

(** What a call on a child may do to the state: it only appends to the
    visited list, and keeps it free of duplicates. *)
Definition extends_visited (call : frame) : Prop :=
  forall ci cci m out m',
    call ci cci m = Ok (out, m') ->
    (exists added, visited m' = visited m ++ added)
    /\ (NoDup (visited m) -> NoDup (visited m')).

(** The loop over [sorted_children]. *)
Fixpoint render_children (self : Self) (last_child : Z)
    (sorted_children : list (Z * frame)) (child_indent : str)
    (result : str) (m : Mut) : Py.result (str * Mut) :=
  match sorted_children with
  | [] => Ok (result, m)
  | (child, call) :: rest =>
      let c_indent :=
        if negb (child =? last_child)%Z
        then child_indent ++ indent_branch self
        else child_indent ++ indent_last self in
      let cc_indent :=
        if negb (child =? last_child)%Z
        then child_indent ++ indent_vertical self
        else child_indent ++ indent_blank self in
      '(r, m) <- call c_indent cc_indent m ;;
      render_children self last_child rest child_indent (result ++ r) m
  end.

Definition by_nid {A} (a b : Z * A) : bool := (fst a <=? fst b)%Z.

Definition last_nid {A} (l : list (Z * A)) : Z :=
  match rev l with
  | [] => 0%Z
  | x :: _ => fst x
  end.

Definition mark_visited (nid : Z) (m : Mut) : Mut :=
  {| visited := visited m ++ [nid];
     temporal_symbols_set := temporal_symbols_set m |}.

Definition is_visited (nid : Z) (m : Mut) : bool :=
  existsb (Z.eqb nid) (visited m).

Fixpoint render_frame (self : Self) (df : DataFrame) (node : Node)
    (indent child_indent : str) (m : Mut) {struct node}
  : result (str * Mut) :=
  if (_depth node <? depth (kw self))%Z then
    '(result, m) <- frame_line self df (_hatchet_nid node) indent m ;;
    if negb (is_visited (_hatchet_nid node) m) then
      let m := mark_visited (_hatchet_nid node) m in
      let sorted_children :=
        sorted by_nid
          (List.map (fun c => (_hatchet_nid c, render_frame self df c))
                    (children node)) in
      render_children self (last_nid sorted_children) sorted_children
        child_indent result m
    else Ok (result, m)
  else Ok ([], m).

(** One colour band of the legend. *)
Definition render_label (self : Self) (index : nat) (low high : float)
  : result str :=
  let metric_range := (max_metric self - min_metric self)%float in
  c <- getitem (colors.colormap (colors_ self)) index ;;
  Ok (c ++ [9608%N; 32%N] ++ colors.end_ (colors_ self)
        ++ fixed 2 (low * metric_range + min_metric self)%float
        ++ u " - "
        ++ fixed 2 (high * metric_range + min_metric self)%float
        ++ NL).

Definition legend_header (self : Self) : str :=
  NL ++ ESC ++ u "[4m" ++ u "Legend" ++ colors.end_ (colors_ self)
    ++ u " (Metric: " ++ primary_metric self
    ++ u " Min: " ++ fixed 2 (min_metric self)
    ++ u " Max: " ++ fixed 2 (max_metric self)
    ++ u ")" ++ NL.

Definition legend_key (self : Self) : str :=
  NL ++ _ansi_color_for_name self (u "name") ++ u "name"
    ++ colors.end_ (colors_ self)
    ++ u " User code    "
    ++ colors.left (colors_ self) ++ arrow_left self
    ++ colors.end_ (colors_ self)
    ++ u " Only in left graph    "
    ++ colors.right (colors_ self) ++ arrow_right self
    ++ colors.end_ (colors_ self)
    ++ u " Only in right graph" ++ NL.

(** The bands [(score_ranges[i], score_ranges[i + 1])] of
    [score_ranges = [0.0, 0.2, 0.4, 0.6, 1.0]], each with [i + 1] and with
    its bounds as [str] prints them. *)
Definition score_bands : list (nat * str * str) :=
  [ (1%nat, u "0.0", u "0.2"); (2%nat, u "0.2", u "0.4");
    (3%nat, u "0.4", u "0.6"); (4%nat, u "0.6", u "1.0") ].

Fixpoint colored_scores (legend_colormap : list str)
    (colors_annotations : option colors.t)
    (bands : list (nat * str * str)) (legend : str) : result str :=
  match bands with
  | [] => Ok legend
  | (i, lo, hi) :: rest =>
      j <- py_mod i (List.length legend_colormap) ;;
      color <- getitem legend_colormap j ;;
      let legend := legend ++ color in
      let legend := legend ++ u "   " ++ lo ++ u " - " ++ hi in
      ca <- get_attr "colors_annotations" colors_annotations ;;
      colored_scores legend_colormap colors_annotations rest
        (legend ++ colors.end_ ca)
  end.

Definition plain_scores (bands : list (nat * str * str)) (legend : str)
  : str :=
  fold_left (fun acc b => acc ++ u "   " ++ snd (fst b) ++ u " - " ++ snd b)
            bands legend.

Definition pattern_names (legend : str) : str :=
  fold_left
    (fun acc kv =>
       if negb (contains (u "none") (fst kv))
       then acc ++ u "   " ++ snd kv ++ u " " ++ fst kv
       else acc)
    temporal_symbols legend.

(** The temporal-pattern part of the legend. *)
Definition legend_temporal (self : Self) (m : Mut) (legend : str)
  : result str :=
  match annotation_column (kw self) with
  | Some ann =>
      if contains (u "_pattern") ann then
        let legend := legend ++ NL ++ u "Temporal Pattern" in
        if negb (temporal_symbols_set m)
        then Raise (AttributeError (u "temporal_symbols"))
        else
          let legend := pattern_names legend in
          let legend := legend ++ NL ++ u "Temporal Score  " in
          if truthy_cmap (colormap_annotations (kw self)) then
            legend_colormap <-
              get_colors (colormap_annotations (kw self)) false ;;
            colored_scores legend_colormap (colors_annotations self)
              score_bands legend
          else Ok (plain_scores score_bands legend)
      else Ok legend
  | None => Ok legend
  end.

Definition legend_bands (self : Self) : result str :=
  b0 <- render_label self 0 0.9 1.0 ;;
  b1 <- render_label self 1 0.7 0.9 ;;
  b2 <- render_label self 2 0.5 0.7 ;;
  b3 <- render_label self 3 0.3 0.5 ;;
  b4 <- render_label self 4 0.1 0.3 ;;
  b5 <- render_label self 5 0.0 0.1 ;;
  Ok (b0 ++ b1 ++ b2 ++ b3 ++ b4 ++ b5).

Definition render_legend (self : Self) (m : Mut) : result str :=
  let legend := legend_header self in
  bands <- legend_bands self ;;
  let legend := legend ++ bands in
  let legend := legend ++ legend_key self in
  legend_temporal self m legend.

(** The renderer object: what [__init__] stores. The attributes that
    [render] and [render_frame] assign later ([render_header], the
    metric names, the colour schemes, [temporal_symbols]) are not fields
    of the record: a call is modelled with them as they are on a
    renderer's first call. *)
Record ConsoleRenderer := {
  cr_unicode : bool;
  cr_color : bool;
  cr_visited : list Z
}.

Definition init (unicode color : bool) : ConsoleRenderer :=
  {| cr_unicode := unicode; cr_color := color; cr_visited := [] |}.

(** [self.primary_metric] and [self.second_metric] from [metric_column];
    an empty list assigns neither. *)
Definition resolve_metrics (mc : metric_arg) : result (str * option str) :=
  match mc with
  | MetricStr s => Ok (s, None)
  | MetricList [] => Raise (AttributeError (u "primary_metric"))
  | MetricList [a] => Ok (a, None)
  | MetricList (a :: b :: _) => Ok (a, Some b)
  end.

Definition missing_column_message (name : str) : str :=
  u "metric_column=" ++ name
    ++ u " does not exist in the dataframe, please select a valid column. See a list of the available metrics with GraphFrame.show_metric_columns().".

(** The two column-existence checks. *)
Definition check_columns (df : DataFrame) (primary : str)
    (second : option str) : result unit :=
  if negb (str_in primary (columns df))
  then Raise (KeyError (CStr (missing_column_message primary)))
  else
    match second with
    | Some s =>
        if negb (str_in s (columns df))
        then Raise (KeyError (CStr (missing_column_message s)))
        else Ok tt
    | None => Ok tt
    end.

(** The colour schemes: [self.colors], [self.colors_annotations] and
    [self.colors_annotations_mapping]. *)
Definition setup_colors (r : ConsoleRenderer) (df : DataFrame) (k : kwargs)
  : result (colors.t * option colors.t * option ann_mapping) :=
  if cr_color r then
    palette <- get_colors (CA_Str (colormap_name k)) (invert_colormap k) ;;
    let colors := colors_enabled palette in
    match annotation_column k with
    | Some ann =>
        if truthy_str (Some ann) && truthy_cmap (colormap_annotations k)
        then
          match colormap_annotations k with
          | CA_Str s =>
              p <- get_colors (CA_Str s) false ;;
              col <- column df ann ;;
              Ok (colors, Some (colors_enabled p),
                  Some (MapList (sorted str_leb
                                   (unique (List.map py_str col)))))
          | CA_List l =>
              col <- column df ann ;;
              Ok (colors, Some (colors_enabled l),
                  Some (MapList (sorted str_leb
                                   (unique (List.map py_str col)))))
          | CA_Dict d =>
              Ok (colors, Some (colors_enabled palette), Some (MapDict d))
          | CA_None => Ok (colors, None, None)
          end
        else Ok (colors, None, None)
    | None => Ok (colors, None, None)
    end
  else Ok (colors_disabled, None, None).

(** [np.isfinite] needs a numeric column. *)
Fixpoint numeric_values (cs : list cell) : result (list float) :=
  match cs with
  | [] => Ok []
  | c :: cs' =>
      x <- as_float c ;;
      xs <- numeric_values cs' ;;
      Ok (x :: xs)
  end.

(** [Series.max()] and [Series.min()] of finite values; [nan] when there
    are none. *)
Definition series_max (l : list float) : float :=
  match l with
  | [] => nan
  | x :: l' => fold_left (fun acc y => if (acc <? y)%float then y else acc) l' x
  end.

Definition series_min (l : list float) : float :=
  match l with
  | [] => nan
  | x :: l' => fold_left (fun acc y => if (y <? acc)%float then y else acc) l' x
  end.

(** The primary metric column, restricted to the configured rank when the
    index has a rank level, without its non-finite values. *)
Definition filtered_series (df : DataFrame) (k : kwargs) (primary : str)
  : result (list float) :=
  metric_series <-
    (if str_in (u "rank") (index_names df)
     then xs df (rank k) primary
     else column df primary) ;;
  values <- numeric_values metric_series ;;
  Ok (filter is_finite values).

Definition default (x : option float) (d : float) : float :=
  match x with
  | Some v => v
  | None => d
  end.

(** [self.max_metric] and [self.min_metric]. *)
Definition resolve_max (k : kwargs) (filtered : list float) : float :=
  if truthy_num (max_value k) then default (max_value k) nan
  else series_max filtered.

Definition resolve_min (k : kwargs) (filtered : list float) : float :=
  if truthy_num (min_value k) then default (min_value k) nan
  else series_min filtered.

(** The loop over the sorted roots. *)
Fixpoint render_roots (self : Self) (df : DataFrame) (roots : list Node)
    (result : str) (m : Mut) : Py.result (str * Mut) :=
  match roots with
  | [] => Ok (result, m)
  | root :: rest =>
      '(r, m) <- render_frame self df root [] [] m ;;
      render_roots self df rest (result ++ r) m
  end.

Definition node_leb (a b : Node) : bool :=
  (_hatchet_nid a <=? _hatchet_nid b)%Z.

Definition empty_message : str := u "The graph is empty." ++ NL ++ NL.

(** Everything [render] resolves between the empty-graph test and the
    traversal. *)
Definition resolve (r : ConsoleRenderer) (df : DataFrame) (k : kwargs)
  : result Self :=
  '(colors, colors_annotations, mapping) <- setup_colors r df k ;;
  '(primary, second) <- resolve_metrics (metric_column k) ;;
  _ <- check_columns df primary second ;;
  filtered <- filtered_series df k primary ;;
  Ok {| unicode := cr_unicode r;
        color := cr_color r;
        kw := k;
        colors_ := colors;
        colors_annotations := colors_annotations;
        colors_annotations_mapping := mapping;
        primary_metric := primary;
        second_metric := second;
        max_metric := resolve_max k filtered;
        min_metric := resolve_min k filtered |}.

(** [render]. The renderer is passed in and returned, with its visited
    list; the other attributes are those of a renderer on its first
    call. *)
Definition render (r : ConsoleRenderer) (roots : option (list Node))
    (df : DataFrame) (k : kwargs) : result (rendered * ConsoleRenderer) :=
  let result := if render_header k then render_preamble else [] in
  match roots with
  | None => Ok (Text (result ++ empty_message), r)
  | Some roots =>
      self <- resolve r df k ;;
      '(result, m) <-
         render_roots self df (sorted node_leb roots) result
           {| visited := cr_visited r; temporal_symbols_set := false |} ;;
      let r' := {| cr_unicode := cr_unicode r;
                   cr_color := cr_color r;
                   cr_visited := visited m |} in
      result <-
        (if cr_color r
         then legend <- render_legend self m ;; Ok (result ++ legend)
         else Ok result) ;;
      if cr_unicode r then Ok (Text result, r')
      else b <- encode_utf8 result ;; Ok (Encoded b, r')
  end.

End ConsoleRenderer.

(* ------------------------------------------------------------------ *)
(** ** The specification's wording, for comparison with the code *)

Module Spec.

(** Section 4.2: [range = max - min]; [(value - min) / range] when the
    range is not zero, else the value itself. *)
Definition proportion (value mn mx : float) : float :=
  let range := (mx - mn)%float in
  if (range =? 0)%float then value else ((value - mn) / range)%float.

Inductive bucket :=
| Bucket (i : nat)
| OutOfRange.

(** Section 4.2: first match wins, [>0.9 -> 0, >0.7 -> 1, >0.5 -> 2,
    >0.3 -> 3, >0.1 -> 4, >=0 -> 5], else the out-of-range colour. *)
Definition select (p : float) : bucket :=
  if (0.9 <? p)%float then Bucket 0
  else if (0.7 <? p)%float then Bucket 1
  else if (0.5 <? p)%float then Bucket 2
  else if (0.3 <? p)%float then Bucket 3
  else if (0.1 <? p)%float then Bucket 4
  else if (0 <=? p)%float then Bucket 5
  else OutOfRange.

(** The last [n] characters of a string. *)
Definition last_chars (n : nat) (s : str) : str :=
  rev (firstn n (rev s)).

(** Section 4.4, step 5: [first 18 chars + "..." + last 18 chars]. *)
Definition collapsed (name : str) : str :=
  firstn 18 name ++ u "..." ++ last_chars 18 name.

(** Section 4.5: the bands of the legend, in order. *)
Definition bands : list (float * float) :=
  [ (0.9, 1.0); (0.7, 0.9); (0.5, 0.7); (0.3, 0.5); (0.1, 0.3);
    (0.0, 0.1) ]%float.

(** Section 4.5: [value = proportion * range + min]. *)
Definition band_value (proportion mn mx : float) : float :=
  (proportion * (mx - mn) + mn)%float.

(** One band: swatch, then the two ends to two decimal places. *)
Definition band (swatch end_ : str) (mn mx : float) (b : float * float)
  : str :=
  swatch ++ [9608%N; 32%N] ++ end_
    ++ fixed 2 (band_value (fst b) mn mx) ++ u " - "
    ++ fixed 2 (band_value (snd b) mn mx) ++ [10%N].

End Spec.

(* ------------------------------------------------------------------ *)
(** ** Example inputs *)

Module Fixtures.

Definition version : str := u "1.3.1".

Definition palette : list str :=
  [ ESC ++ u "[38;5;196m"; ESC ++ u "[38;5;208m"; ESC ++ u "[38;5;220m";
    ESC ++ u "[38;5;46m"; ESC ++ u "[38;5;34m"; ESC ++ u "[38;5;22m";
    ESC ++ u "[38;5;21m" ].

(** A palette lookup that knows one palette. *)
Definition get_colors (name : cmap_ann) (invert : bool)
  : result (list str) :=
  Ok (if invert then rev palette else palette).

(** A stand-in for [repr] on floats: one decimal place, which is what
    [repr] prints for the numbers of the examples. *)
Definition float_repr (x : float) : str := fixed 1 x.

(** A table indexed by node alone, from its rows. *)
Fixpoint cell_of (cols : list str) (row : list cell) (c : str) : cell :=
  match cols, row with
  | col :: cols', v :: row' =>
      if str_eqb col c then v else cell_of cols' row' c
  | _, _ => CNone
  end.

Definition table (cols : list str) (rows : list (Z * list cell))
  : DataFrame :=
  {| index_names := [u "node"];
     columns := cols;
     index := List.map (fun r => Key (fst r) None None) rows;
     cells := fun k c =>
       match find (fun r => (fst r =? k_node k)%Z) rows with
       | Some r => cell_of cols (snd r) c
       | None => CNone
       end |}.

(** The diamond: [X] is a child of both [A] and [B]. *)
Definition X : Node := mkNode 3 2 [].
Definition A : Node := mkNode 1 1 [X].
Definition B : Node := mkNode 2 1 [X].
Definition R : Node := mkNode 0 0 [B; A].

Definition diamond : DataFrame :=
  table [u "time"; u "name"]
    [ (0%Z, [CNum 4; CStr (u "R")]);
      (1%Z, [CNum 1; CStr (u "A")]);
      (2%Z, [CNum 2; CStr (u "B")]);
      (3%Z, [CNum 3; CStr (u "X")]) ].

(** The same diamond with a node [Y2] below the shared node. *)
Definition Y2 : Node := mkNode 4 3 [].
Definition X2 : Node := mkNode 3 2 [Y2].
Definition B2 : Node := mkNode 2 1 [X2].


Definition options : kwargs :=
  {| render_header := false;
     metric_column := MetricStr (u "time");
     annotation_column := None;
     precision := 2;
     name_column := u "name";
     expand_name := false;
     context_column := Some (u "file");
     rank := 0;
     thread := 0;
     depth := 10000;
     highlight_name := false;
     colormap_name := u "RdYlGn";
     invert_colormap := false;
     colormap_annotations := CA_None;
     min_value := None;
     max_value := None |}.

(** A table without the metric column. *)
Definition no_time : DataFrame :=
  table [u "name"] [ (0%Z, [CStr (u "R")]) ].

(** A one-node graph and its table. *)
Definition leaf : Node := mkNode 0 0 [].

Definition three_rows : DataFrame :=
  table [u "time"; u "name"]
    [ (0%Z, [CNum 1; CStr (u "main")]);
      (1%Z, [CNum 2; CStr (u "solve")]);
      (2%Z, [CNum 3; CStr (u "io")]) ].

Definition with_min (k : kwargs) (v : option float) : kwargs :=
  {| render_header := render_header k;
     metric_column := metric_column k;
     annotation_column := annotation_column k;
     precision := precision k;
     name_column := name_column k;
     expand_name := expand_name k;
     context_column := context_column k;
     rank := rank k;
     thread := thread k;
     depth := depth k;
     highlight_name := highlight_name k;
     colormap_name := colormap_name k;
     invert_colormap := invert_colormap k;
     colormap_annotations := colormap_annotations k;
     min_value := v;
     max_value := max_value k |}.

Definition with_annotation (k : kwargs) (ann : option str) (c : cmap_ann)
  : kwargs :=
  {| render_header := render_header k;
     metric_column := metric_column k;
     annotation_column := ann;
     precision := precision k;
     name_column := name_column k;
     expand_name := expand_name k;
     context_column := context_column k;
     rank := rank k;
     thread := thread k;
     depth := depth k;
     highlight_name := highlight_name k;
     colormap_name := colormap_name k;
     invert_colormap := invert_colormap k;
     colormap_annotations := c;
     min_value := min_value k;
     max_value := max_value k |}.

(** The renderer's attributes on the diamond, colours off. *)
Definition plain : Self :=
  {| unicode := false;
     color := false;
     kw := options;
     colors_ := colors_disabled;
     colors_annotations := None;
     colors_annotations_mapping := None;
     primary_metric := u "time";
     second_metric := None;
     max_metric := 4;
     min_metric := 1 |}.

(** The same with colours on and the bounds 0 and 10. *)
Definition coloured : Self :=
  {| unicode := false;
     color := true;
     kw := options;
     colors_ := colors_enabled palette;
     colors_annotations := None;
     colors_annotations_mapping := None;
     primary_metric := u "time";
     second_metric := None;
     max_metric := 10;
     min_metric := 0 |}.

(** A row whose diff marker is 3. *)
Definition marked : DataFrame :=
  table [u "time"; u "name"; u "_missing_node"]
    [ (0%Z, [CNum 1; CStr (u "main"); CNum 3]) ].

(** The rows of a diff: a node of both graphs, one that is only in the
    left graph and one that is only in the right graph. *)
Definition diffed : DataFrame :=
  table [u "time"; u "name"; u "_missing_node"]
    [ (0%Z, [CNum 1; CStr (u "both"); CNum 0]);
      (1%Z, [CNum 2; CStr (u "gone"); CNum 1]);
      (2%Z, [CNum 3; CStr (u "new"); CNum 2]) ].

(** Colours on, and the unicode glyphs. *)
Definition coloured_unicode : Self :=
  {| unicode := true;
     color := true;
     kw := options;
     colors_ := colors_enabled palette;
     colors_annotations := None;
     colors_annotations_mapping := None;
     primary_metric := u "time";
     second_metric := None;
     max_metric := 10;
     min_metric := 0 |}.

(** A row whose temporal pattern is missing. *)
Definition patterned : DataFrame :=
  table [u "time"; u "name"; u "time_pattern"]
    [ (0%Z, [CNum 1; CStr (u "main"); CNum nan]) ].



(** A name of 50 characters. *)
Definition long_name : str :=
  u "solver::ConjugateGradient<double>::iterate_until()".

Definition long_named : DataFrame :=
  table [u "time"; u "name"]
    [ (0%Z, [CNum 1; CStr long_name]) ].

Definition start : Mut :=
  {| visited := []; temporal_symbols_set := false |}.

(** [render] with the parameters of the examples. *)
Definition run := render version get_colors float_repr.

(** A table with a categorical annotation. *)
Definition annotated : DataFrame :=
  table [u "time"; u "name"; u "kind"]
    [ (0%Z, [CNum 1; CStr (u "main"); CStr (u "cpu")]);
      (1%Z, [CNum 2; CStr (u "solve"); CStr (u "mpi")]) ].

Definition two_colors : list str :=
  [ESC ++ u "[31m"; ESC ++ u "[32m"].

Definition annotating : kwargs :=
  with_annotation options (Some (u "kind")) (CA_List two_colors).

(** A name of an unknown procedure, as a profiler reports it. *)
Definition unknown_name : str :=
  u "<unknown procedure> 0x7f3a [libpthread-2.17.so]".

(** The attributes with colour and highlighting on. *)
Definition highlighting : Self :=
  {| unicode := false;
     color := true;
     kw := {| render_header := false;
              metric_column := MetricStr (u "time");
              annotation_column := None;
              precision := 2;
              name_column := u "name";
              expand_name := false;
              context_column := None;
              rank := 0;
              thread := 0;
              depth := 10000;
              highlight_name := true;
              colormap_name := u "RdYlGn";
              invert_colormap := false;
              colormap_annotations := CA_None;
              min_value := None;
              max_value := None |};
     colors_ := colors_enabled palette;
     colors_annotations := None;
     colors_annotations_mapping := None;
     primary_metric := u "time";
     second_metric := None;
     max_metric := 10;
     min_metric := 0 |}.

(** A node at the depth cutoff of [options], with a child, and no row in
    any table. *)
Definition far : Node := mkNode 7 10000 [mkNode 8 10001 []].

End Fixtures.

(* ------------------------------------------------------------------ *)
(** ** Notions used to state further properties *)

Module Notions.

(** What follows the decorator on a line: the context, when its column is
    in the table, and the newline. *)
Definition context_suffix (float_repr : float -> str) (self : Self)
    (df : DataFrame) (k : key) : result str :=
  match context_column (kw self) with
  | Some context =>
      if str_in context (columns df) then
        c <- loc df k context ;;
        Ok (u " " ++ colors.faint (colors_ self) ++ py_str float_repr c
              ++ colors.end_ (colors_ self) ++ NL)
      else Ok NL
  | None => Ok NL
  end.

(** A binary64 value that is a number, as opposed to a NaN. *)
Definition sf_number (x : spec_float) : bool :=
  match x with
  | S754_nan => false
  | _ => true
  end.

(** The loop over the roots with every node reduced to its own line:
    what the traversal emits when nothing below the roots is rendered. *)
Fixpoint root_lines (float_repr : float -> str) (self : Self)
    (df : DataFrame) (roots : list Node) (result : str) (m : Mut)
  : Py.result (str * Mut) :=
  match roots with
  | [] => Ok (result, m)
  | root :: rest =>
      '(line, m) <-
         frame_line float_repr self df (_hatchet_nid root) [] m ;;
      root_lines float_repr self df rest (result ++ line) m
  end.

(** A text without the escape character that starts a colour code. *)
Definition plain (s : str) : Prop := ~ In 27%N s.

(** The same for what [render] returns: no escape character in the
    [str], no escape byte in the [bytes]. *)
Definition plain_result (out : rendered) : Prop :=
  match out with
  | Text s => plain s
  | Encoded b => ~ In Byte.x1b b
  end.

(** The arguments of a call with another [metric_column]. *)
Definition with_metric (k : kwargs) (mc : metric_arg) : kwargs :=
  {| render_header := render_header k;
     metric_column := mc;
     annotation_column := annotation_column k;
     precision := precision k;
     name_column := name_column k;
     expand_name := expand_name k;
     context_column := context_column k;
     rank := rank k;
     thread := thread k;
     depth := depth k;
     highlight_name := highlight_name k;
     colormap_name := colormap_name k;
     invert_colormap := invert_colormap k;
     colormap_annotations := colormap_annotations k;
     min_value := min_value k;
     max_value := max_value k |}.

(** The resolved attributes with other call arguments. *)
Definition with_kw (self : Self) (k : kwargs) : Self :=
  {| unicode := unicode self;
     color := color self;
     kw := k;
     colors_ := colors_ self;
     colors_annotations := colors_annotations self;
     colors_annotations_mapping := colors_annotations_mapping self;
     primary_metric := primary_metric self;
     second_metric := second_metric self;
     max_metric := max_metric self;
     min_metric := min_metric self |}.

(** The arguments of a call with another depth cutoff. *)
Definition with_depth (k : kwargs) (d : Z) : kwargs :=
  {| render_header := render_header k;
     metric_column := metric_column k;
     annotation_column := annotation_column k;
     precision := precision k;
     name_column := name_column k;
     expand_name := expand_name k;
     context_column := context_column k;
     rank := rank k;
     thread := thread k;
     depth := d;
     highlight_name := highlight_name k;
     colormap_name := colormap_name k;
     invert_colormap := invert_colormap k;
     colormap_annotations := colormap_annotations k;
     min_value := min_value k;
     max_value := max_value k |}.

(** A node and everything below it. *)
Fixpoint nodes_of (n : Node) : list Node :=
  match n with
  | mkNode _ _ cs => n :: flat_map nodes_of cs
  end.

(** The id of one of [nodes] whose depth is below the cutoff. *)
Definition within_cutoff (cutoff : Z) (nodes : list Node) (nid : Z)
  : Prop :=
  exists n, In n nodes /\ _hatchet_nid n = nid /\ (_depth n < cutoff)%Z.

(** A call that only appends to the visited list, and only ids that
    satisfy [Q]. *)
Definition appends_only (Q : Z -> Prop) (call : frame) : Prop :=
  forall ci cci m out m',
    call ci cci m = Ok (out, m') ->
    exists added, visited m' = visited m ++ added /\ Forall Q added.


(** [sorted(node.children, key=lambda n: n._hatchet_nid)] and the id of
    its last element. *)
Definition sorted_children (n : Node) : list Node :=
  sorted node_leb (children n).

Definition last_child (n : Node) : Z :=
  last_nid (List.map (fun c => (_hatchet_nid c, c)) (sorted_children n)).



End Notions.

(* ------------------------------------------------------------------ *)
(** ** Basic facts *)

Unset Implicit Arguments.

Section PyFacts.

Lemma str_eqb_eq a b : str_eqb a b = true <-> a = b.
Proof.
  unfold str_eqb. destruct (list_eq_dec N.eq_dec a b); split; congruence.
Qed.

Lemma str_eqb_refl a : str_eqb a a = true.
Proof. now apply str_eqb_eq. Qed.

Lemma str_in_In x xs : str_in x xs = true <-> In x xs.
Proof.
  unfold str_in. rewrite existsb_exists. split.
  - intros [y [Hy He]]. apply str_eqb_eq in He. now subst.
  - intros H. exists x. split; [assumption | apply str_eqb_refl].
Qed.

Lemma str_in_false x xs : str_in x xs = false <-> ~ In x xs.
Proof.
  rewrite <- str_in_In. destruct (str_in x xs); split; congruence.
Qed.

Lemma bind_ok {A B} (m : result A) (k : A -> result B) b :
  bind m k = Ok b -> exists a, m = Ok a /\ k a = Ok b.
Proof.
  destruct m as [a | e]; simpl; intros H; [eauto | discriminate].
Qed.

Lemma ok_inv {A} (a a' : A) : Ok a = Ok a' -> a = a'.
Proof. intros H. now inversion H. Qed.

Lemma ok_pair_inv {A B} (a a' : A) (b b' : B) :
  Ok (a, b) = Ok (a', b') -> a = a' /\ b = b'.
Proof. intros H. inversion H. auto. Qed.

Lemma raises_bind {A B} (m : result A) (k : A -> result B) :
  raises m -> raises (bind m k).
Proof. intros [e ->]. now exists e. Qed.

End PyFacts.

(** [bind_inv H as pat]: from [H : (x <- m ;; k x) = Ok b], the value of
    [m] and the equation of the continuation. *)
Tactic Notation "bind_inv" hyp(H) "as" simple_intropattern(pat) :=
  apply bind_ok in H; destruct H as pat.

(* ------------------------------------------------------------------ *)
(** ** Checks of the built-ins on known values *)

Section BuiltinChecks.

Example fixed_ex1 : fixed 2 3.456%float = u "3.46".
Proof. vm_compute. reflexivity. Qed.
Example fixed_ex2 : fixed 2 (-0.001)%float = u "-0.00".
Proof. vm_compute. reflexivity. Qed.
Example fixed_ex3 : fixed 0 2.5%float = u "2".
Proof. vm_compute. reflexivity. Qed.
Example fixed_ex4 : fixed 2 nan = u "nan".
Proof. vm_compute. reflexivity. Qed.
Example fixed_ex5 : fixed 3 1e21%float = u "1000000000000000000000.000".
Proof. vm_compute. reflexivity. Qed.
Example fixed_ex6 : fixed 1 0.25%float = u "0.2".
Proof. vm_compute. reflexivity. Qed.
Example fixed_ex7 : fixed 2 1.005%float = u "1.00".
Proof. vm_compute. reflexivity. Qed.
Example utf8_ex : encode_utf8 [9608%N; 32%N] =
  Ok [Byte.xe2; Byte.x96; Byte.x88; Byte.x20].
Proof. vm_compute. reflexivity. Qed.
Example fixed_ex8 : fixed 2 7%float = u "7.00".
Proof. vm_compute. reflexivity. Qed.
Example sorted_is_stable :
  sorted (fun a b : Z * nat => (fst a <=? fst b)%Z)
         [(2%Z, 0%nat); (1%Z, 1%nat); (2%Z, 2%nat); (1%Z, 3%nat)]
  = [(1%Z, 1%nat); (1%Z, 3%nat); (2%Z, 0%nat); (2%Z, 2%nat)].
Proof. vm_compute. reflexivity. Qed.

End BuiltinChecks.

(* ------------------------------------------------------------------ *)
(** ** Properties of [render]: the empty graph, the columns, the bounds *)

Section RenderProperties.

Variable version : str.
Variable get_colors : cmap_ann -> bool -> result (list str).
Variable float_repr : float -> str.

Lemma check_columns_missing df primary second :
  (~ In primary (columns df)
   \/ exists s, second = Some s /\ ~ In s (columns df)) ->
  exists name,
    (name = primary \/ second = Some name)
    /\ ~ In name (columns df)
    /\ (~ In primary (columns df) -> name = primary)
    /\ check_columns df primary second
       = Raise (KeyError (CStr (missing_column_message name))).
Proof.
  intros H. unfold check_columns.
  destruct (str_in primary (columns df)) eqn:Hp; simpl.
  - apply str_in_In in Hp.
    destruct H as [H | [s [-> Hs]]]; [contradiction |].
    apply str_in_false in Hs. rewrite Hs. simpl.
    exists s. apply str_in_false in Hs.
    repeat split; auto. intros Hn. contradiction.
  - exists primary. apply str_in_false in Hp. auto.
Qed.

Lemma render_resolve_raise r roots df k e :
  resolve get_colors float_repr r df k = Raise e ->
  render version get_colors float_repr r (Some roots) df k = Raise e.
Proof. intros H. unfold render. now rewrite H. Qed.

(** C7 (as amended): with a root set that is not [None], if the primary
    or the secondary metric column is absent from the table then the
    resolution step of [render] raises, so [render] raises the same
    error for every root set and returns no text; and whenever the colour
    set-up before the check succeeded, the error is the [KeyError] whose
    message names a missing metric column, the primary one if it is
    missing. *)
Theorem missing_metric_column_fails r df k primary second :
  resolve_metrics (metric_column k) = Ok (primary, second) ->
  (~ In primary (columns df)
   \/ exists s, second = Some s /\ ~ In s (columns df)) ->
  (exists e,
      resolve get_colors float_repr r df k = Raise e
      /\ forall roots,
           render version get_colors float_repr r (Some roots) df k
           = Raise e)
  /\ (forall c,
        setup_colors get_colors float_repr r df k = Ok c ->
        exists name,
          (name = primary \/ second = Some name)
          /\ ~ In name (columns df)
          /\ (~ In primary (columns df) -> name = primary)
          /\ forall roots,
               render version get_colors float_repr r (Some roots) df k
               = Raise (KeyError (CStr (missing_column_message name)))).
Proof.
  intros Hm Hmiss.
  destruct (check_columns_missing df primary second Hmiss)
    as [name [Hname [Hin [Hfirst Hchk]]]].
  assert (Hres : forall c,
             setup_colors get_colors float_repr r df k = Ok c ->
             resolve get_colors float_repr r df k
             = Raise (KeyError (CStr (missing_column_message name)))).
  { intros [[c1 c2] c3] Hc. unfold resolve.
    rewrite Hc. simpl. rewrite Hm. simpl. rewrite Hchk. reflexivity. }
  split.
  - destruct (setup_colors get_colors float_repr r df k) as [c | e] eqn:Hc.
    + pose proof (Hres c eq_refl) as He.
      eexists. split; [exact He |].
      intros roots. now apply render_resolve_raise.
    + assert (He : resolve get_colors float_repr r df k = Raise e).
      { unfold resolve. rewrite Hc. reflexivity. }
      exists e. split; [exact He |].
      intros roots. now apply render_resolve_raise.
  - intros c Hc. exists name. repeat split; try assumption.
    intros roots. apply render_resolve_raise. now apply (Hres c).
Qed.

(** An override that is a non-zero number is the resolved bound, and
    without an override the bound is that of the finite data. *)
Lemma resolve_min_spec k filtered :
  (forall v, min_value k = Some v -> (v =? 0)%float = false ->
             resolve_min k filtered = v)
  /\ (min_value k = None -> resolve_min k filtered = series_min filtered).
Proof.
  unfold resolve_min, truthy_num, default. split.
  - intros v -> Hv. now rewrite Hv.
  - now intros ->.
Qed.

Lemma resolve_max_spec k filtered :
  (forall v, max_value k = Some v -> (v =? 0)%float = false ->
             resolve_max k filtered = v)
  /\ (max_value k = None -> resolve_max k filtered = series_max filtered).
Proof.
  unfold resolve_max, truthy_num, default. split.
  - intros v -> Hv. now rewrite Hv.
  - now intros ->.
Qed.

(** On a root set that is not [None], the result is a [str] in unicode
    mode and [bytes], the UTF-8 encoding of the composed text, otherwise. *)
Lemma render_some_encoding r roots df k out r' :
  render version get_colors float_repr r (Some roots) df k = Ok (out, r') ->
  if cr_unicode r then exists s, out = Text s
  else exists s b, encode_utf8 s = Ok b /\ out = Encoded b.
Proof.
  unfold render. intros H.
  bind_inv H as [self [_ H]].
  bind_inv H as [[res m] [_ H]].
  bind_inv H as [res' [_ H]].
  destruct (cr_unicode r).
  - inversion H. eauto.
  - bind_inv H as [b [Hb H]]. inversion H. eauto.
Qed.

End RenderProperties.

(* ------------------------------------------------------------------ *)
(** ** The colour bucketizer *)

Section BucketProperties.

Lemma div_eucl_pair a b : Z.div_eucl a b = ((a / b)%Z, (a mod b)%Z).
Proof. unfold Z.div, Z.modulo. now destruct (Z.div_eucl a b). Qed.

(** Dividing a finite binary64 number by one gives the number back: the
    quotient is exact, so rounding does not move it. *)
Lemma div_one_finite s m e :
  bounded prec emax m e = true ->
  SF64div (S754_finite s m e) (S754_finite false 4503599627370496 (-52))
  = S754_finite s m e.
Proof.
  intros Hb. unfold bounded, canonical_mantissa, fexp, emin in Hb.
  apply andb_true_iff in Hb. destruct Hb as [Hc He].
  apply Z.eqb_eq in Hc. apply Z.leb_le in He.
  unfold prec, emax in *.
  unfold SF64div, SFdiv, SFdiv_core_binary.
  cbv zeta.
  replace (xorb s false) with s by (now destruct s).
  set (D := Zpos (digits2_pos m)) in *.
  assert (HD : (0 < D)%Z) by (unfold D; lia).
  change (Zdigits2 (Z.pos m)) with D.
  change (Zdigits2 (Zpos 4503599627370496)) with 53%Z.
  unfold fexp, emin, prec, emax.
  destruct (Z.eq_dec e (-1074)) as [He1 | He1].
  - (* smallest exponent: the quotient is the mantissa itself *)
    subst e.
    replace (Z.min (Z.max (D + -1074 - (53 + -52) - 53) (3 - 1024 - 53))
                   (-1074 - -52))%Z
      with (-1074)%Z by lia.
    change (-1074 - -52 - -1074)%Z with 52%Z.
    rewrite Z.shiftl_mul_pow2 by lia.
    rewrite div_eucl_pair.
    change 4503599627370496%Z with (2 ^ 52)%Z.
    rewrite Z.div_mul by lia. rewrite Z.mod_mul by lia.
    change (new_location (2 ^ 52) 0) with loc_Exact.
    unfold binary_round_aux, shr_fexp, fexp, emin.
    change (Zdigits2 (Z.pos m)) with D.
    replace (Z.max (D + -1074 - 53) (3 - 1024 - 53) - -1074)%Z
      with 0%Z by lia.
    cbn [shr shr_record_of_loc round_nearest_even shr_m loc_of_shr_record].
    change (Zdigits2 (Z.pos m)) with D.
    replace (Z.max (D + -1074 - 53) (3 - 1024 - 53) - -1074)%Z
      with 0%Z by lia.
    cbn [shr shr_record_of_loc round_nearest_even shr_m loc_of_shr_record].
    reflexivity.
  - (* a normal number: the quotient has one more bit, shifted back *)
    assert (HD53 : D = 53%Z) by lia.
    replace (Z.min (Z.max (D + e - (53 + -52) - 53) (3 - 1024 - 53))
                   (e - -52))%Z
      with (e - 1)%Z by lia.
    replace (e - -52 - (e - 1))%Z with 53%Z by lia.
    rewrite Z.shiftl_mul_pow2 by lia.
    rewrite div_eucl_pair.
    change 4503599627370496%Z with (2 ^ 52)%Z.
    replace (Z.pos m * 2 ^ 53)%Z with ((Z.pos m * 2) * 2 ^ 52)%Z
      by (change (2 ^ 53)%Z with (2 * 2 ^ 52)%Z; ring).
    rewrite Z.div_mul by lia. rewrite Z.mod_mul by lia.
    change (new_location (2 ^ 52) 0) with loc_Exact.
    replace (Z.pos m * 2)%Z with (Z.pos m~0) by lia.
    unfold binary_round_aux, shr_fexp, fexp, emin.
    change (Zdigits2 (Z.pos m~0)) with (Z.pos (Pos.succ (digits2_pos m))).
    rewrite Pos2Z.inj_succ. fold D.
    replace (Z.max (Z.succ D + (e - 1) - 53) (3 - 1024 - 53) - (e - 1))%Z
      with 1%Z by lia.
    cbn [shr shr_record_of_loc round_nearest_even shr_m loc_of_shr_record
         iter_pos shr_1 orb].
    change (Zdigits2 (Z.pos m)) with D.
    replace (e - 1 + 1)%Z with e by lia.
    replace (Z.max (D + e - 53) (3 - 1024 - 53) - e)%Z with 0%Z by lia.
    cbn [shr shr_record_of_loc round_nearest_even shr_m loc_of_shr_record].
    change (1024 - 53)%Z with 971%Z.
    destruct (Z.leb_spec e 971); [reflexivity | lia].
Qed.

Lemma div_one x : (x / 1)%float = x.
Proof.
  apply Prim2SF_inj. rewrite div_spec.
  change (Prim2SF 1) with (S754_finite false 4503599627370496 (-52)).
  pose proof (Prim2SF_valid x) as Hv.
  destruct (Prim2SF x) as [s | s | | s m e].
  - now destruct s.
  - now destruct s.
  - reflexivity.
  - now apply div_one_finite.
Qed.

(** A negative proportion passes none of the six tests. *)
Lemma select_negative p :
  (p <? 0)%float = true -> Spec.select p = Spec.OutOfRange.
Proof.
  intros H. unfold Spec.select.
  rewrite ltb_spec in H. rewrite !ltb_spec, leb_spec.
  set (t9 := Prim2SF 0.9). vm_compute in t9. subst t9.
  set (t7 := Prim2SF 0.7). vm_compute in t7. subst t7.
  set (t5 := Prim2SF 0.5). vm_compute in t5. subst t5.
  set (t3 := Prim2SF 0.3). vm_compute in t3. subst t3.
  set (t1 := Prim2SF 0.1). vm_compute in t1. subst t1.
  set (t0 := Prim2SF 0). vm_compute in t0. subst t0.
  destruct (Prim2SF p) as [s | s | | s m e];
    try destruct s; try discriminate H; reflexivity.
Qed.

(** The code's chain of tests is the specification's selection. *)
Lemma ansi_color_select self v :
  _ansi_color_for_metric self v
  = match Spec.select (proportion_of_total self v) with
    | Spec.Bucket i => getitem (colors.colormap (colors_ self)) i
    | Spec.OutOfRange => Ok (colors.blue (colors_ self))
    end.
Proof.
  unfold _ansi_color_for_metric, Spec.select.
  repeat match goal with
         | |- context [if ?b then _ else _] => destruct b; try reflexivity
         end.
Qed.

(** C5: the proportion is [(v - min) / (max - min)] when the range is not
    zero and [v] itself when it is; the colour is the palette entry of the
    first bucket whose test the proportion passes ([> 0.9], [> 0.7],
    [> 0.5], [> 0.3], [> 0.1], [>= 0]) and the out-of-range colour when it
    passes none, which is the case of every negative proportion; a
    proportion of exactly 0.9 is in bucket 1, the next float above it in
    bucket 0. *)
Theorem color_bucketing self v :
  proportion_of_total self v
  = Spec.proportion v (min_metric self) (max_metric self)
  /\ _ansi_color_for_metric self v
     = match Spec.select (proportion_of_total self v) with
       | Spec.Bucket i => getitem (colors.colormap (colors_ self)) i
       | Spec.OutOfRange => Ok (colors.blue (colors_ self))
       end
  /\ ((proportion_of_total self v <? 0)%float = true ->
      _ansi_color_for_metric self v = Ok (colors.blue (colors_ self)))
  /\ Spec.select 0.9 = Spec.Bucket 1
  /\ Spec.select (next_up 0.9) = Spec.Bucket 0.
Proof.
  split; [| split; [apply ansi_color_select | split; [| split]]].
  - unfold proportion_of_total, Spec.proportion.
    destruct (max_metric self - min_metric self =? 0)%float; simpl.
    + apply div_one.
    + reflexivity.
  - intros Hneg. rewrite ansi_color_select.
    now rewrite (select_negative _ Hneg).
  - vm_compute. reflexivity.
  - vm_compute. reflexivity.
Qed.

End BucketProperties.

(* ------------------------------------------------------------------ *)
(** ** The line of one node *)

Section LineProperties.

Variable float_repr : float -> str.


Lemma skipn_last_chars n (s : str) :
  skipn (List.length s - n) s = Spec.last_chars n s.
Proof.
  unfold Spec.last_chars. rewrite firstn_rev. now rewrite rev_involutive.
Qed.

Lemma annotate_visited self df k ms m ms' m' :
  annotate float_repr self df k ms m = Ok (ms', m') ->
  visited m' = visited m.
Proof.
  unfold annotate. destruct (annotation_column (kw self)).
  - intros H. bind_inv H as [[a set] [_ H]].
    now inversion H.
  - intros H. now inversion H.
Qed.

(** What a line is made of when [frame_line] returns one. *)
Lemma frame_line_ok self df nid indent m line m' :
  frame_line float_repr self df nid indent m = Ok (line, m') ->
  exists ms ms' ns tail,
    metric_text self df (df_index self df nid) = Ok ms
    /\ annotate float_repr self df (df_index self df nid) ms m
       = Ok (ms', m')
    /\ name_text self df (df_index self df nid) = Ok ns
    /\ line = indent ++ ms' ++ u " " ++ ns ++ tail.
Proof.
  unfold frame_line. intros H.
  bind_inv H as [ms [Hms H]].
  bind_inv H as [[ms' m1] [Hann H]].
  bind_inv H as [ns [Hns H]].
  bind_inv H as [deco [_ H]].
  bind_inv H as [res [Hres H]].
  assert (Hshape : exists d, res = indent ++ ms' ++ u " " ++ ns ++ d).
  { destruct (str_in (u "_missing_node") (columns df)).
    - destruct deco as [d |]; [| discriminate].
      apply ok_inv in Hres. subst res.
      exists d. now rewrite <- !app_assoc.
    - apply ok_inv in Hres. subst res. exists []. now rewrite app_nil_r. }
  destruct Hshape as [d ->].
  destruct (context_column (kw self)) as [context |].
  - destruct (str_in context (columns df)).
    + bind_inv H as [c [_ H]].
      apply ok_pair_inv in H. destruct H as [<- <-].
      exists ms, ms', ns,
        (d ++ u " " ++ colors.faint (colors_ self) ++ py_str float_repr c
           ++ colors.end_ (colors_ self) ++ NL).
      repeat split; try assumption. now rewrite <- !app_assoc.
    + apply ok_pair_inv in H. destruct H as [<- <-].
      exists ms, ms', ns, (d ++ NL).
      repeat split; try assumption. now rewrite <- !app_assoc.
  - apply ok_pair_inv in H. destruct H as [<- <-].
    exists ms, ms', ns, (d ++ NL).
    repeat split; try assumption. now rewrite <- !app_assoc.
Qed.

Lemma frame_line_visited self df nid indent m line m' :
  frame_line float_repr self df nid indent m = Ok (line, m') ->
  visited m' = visited m.
Proof.
  intros H. apply frame_line_ok in H.
  destruct H as [ms [ms' [ns [tl [_ [Ha _]]]]]].
  now apply annotate_visited in Ha.
Qed.

(** C8: with [expand_name] off, a name of more than 39 characters is
    shown as its first 18 characters, three dots and its last 18
    characters (39 characters in all), and a name of at most 39
    characters is shown unchanged; the shown name is what the node's line
    carries, in its highlight colour. *)
Theorem long_names_are_collapsed self name :
  expand_name (kw self) = false ->
  ((39 < List.length name)%nat ->
     display_name self name = Spec.collapsed name
     /\ List.length (display_name self name) = 39%nat)
  /\ ((List.length name <= 39)%nat -> display_name self name = name)
  /\ (forall df nid indent m line m',
        loc df (df_index self df nid) (name_column (kw self))
        = Ok (CStr name) ->
        frame_line float_repr self df nid indent m = Ok (line, m') ->
        exists before after,
          line = indent ++ before ++ u " "
                 ++ _ansi_color_for_name self (display_name self name)
                 ++ display_name self name
                 ++ colors.end_ (colors_ self) ++ after).
Proof.
  intros Hexp. unfold display_name. rewrite Hexp. simpl negb. cbv iota.
  split; [| split].
  - intros Hlen.
    assert (Hif : (39 <? List.length name)%nat = true)
      by now apply Nat.ltb_lt.
    rewrite Hif. unfold Spec.collapsed, slice_to, slice_from.
    rewrite skipn_last_chars. split; [reflexivity |].
    rewrite !length_app. unfold Spec.last_chars.
    rewrite length_rev, !length_firstn, length_rev.
    change (List.length (u "...")) with 3%nat. lia.
  - intros Hlen.
    assert (Hif : (39 <? List.length name)%nat = false)
      by now apply Nat.ltb_ge.
    now rewrite Hif.
  - intros df nid indent m line m' Hloc Hline.
    apply frame_line_ok in Hline.
    destruct Hline as [ms [ms' [ns [tl [_ [_ [Hns ->]]]]]]].
    unfold name_text in Hns. rewrite Hloc in Hns.
    unfold bind, as_str in Hns. apply ok_inv in Hns. subst ns.
    unfold display_name. rewrite Hexp. simpl negb. cbv iota.
    exists ms', tl. now rewrite <- !app_assoc.
Qed.

End LineProperties.

(* ------------------------------------------------------------------ *)
(** ** The diff marker and per-row anomalies *)

Section RowProperties.

Variable float_repr : float -> str.

(** [render_frame], one step unfolded. *)
Lemma render_frame_eq self df node indent child_indent m :
  render_frame float_repr self df node indent child_indent m
  = if (_depth node <? depth (kw self))%Z then
      '(result, m) <-
         frame_line float_repr self df (_hatchet_nid node) indent m ;;
      if negb (is_visited (_hatchet_nid node) m) then
        let sorted_children :=
          sorted by_nid
            (List.map
               (fun c => (_hatchet_nid c, render_frame float_repr self df c))
               (children node)) in
        render_children self (last_nid sorted_children) sorted_children
          child_indent result (mark_visited (_hatchet_nid node) m)
      else Ok (result, m)
    else Ok ([], m).
Proof. destruct node. reflexivity. Qed.

Lemma render_frame_line_raises self df node indent child_indent m :
  (_depth node < depth (kw self))%Z ->
  raises (frame_line float_repr self df (_hatchet_nid node) indent m) ->
  raises (render_frame float_repr self df node indent child_indent m).
Proof.
  intros Hd Hr. rewrite render_frame_eq.
  apply Z.ltb_lt in Hd. rewrite Hd. now apply raises_bind.
Qed.





End RowProperties.

(* ------------------------------------------------------------------ *)
(** ** The traversal and the visited list *)

Section TraversalProperties.

Variable version : str.
Variable get_colors : cmap_ann -> bool -> result (list str).
Variable float_repr : float -> str.

(** Induction on a node with the hypothesis for all its children. *)
Lemma Node_children_ind (P : Node -> Prop) :
  (forall nid d cs, Forall P cs -> P (mkNode nid d cs)) ->
  forall n, P n.
Proof.
  intros H. fix IH 1. intros [nid d cs]. apply H.
  induction cs as [| c cs IHcs]; constructor; [apply IH | exact IHcs].
Qed.

Lemma Forall_insert {A} (leb : A -> A -> bool) (Q : A -> Prop) x l :
  Q x -> Forall Q l -> Forall Q (insert leb x l).
Proof.
  intros Hx Hl. induction Hl as [| y l Hy Hl IH]; simpl.
  - now constructor.
  - destruct (leb x y); repeat constructor; assumption.
Qed.

Lemma Forall_sorted {A} (leb : A -> A -> bool) (Q : A -> Prop) l :
  Forall Q l -> Forall Q (sorted leb l).
Proof.
  intros Hl. induction Hl as [| y l Hy Hl IH]; simpl.
  - constructor.
  - now apply Forall_insert.
Qed.

Lemma render_children_spec self last cs child_indent result m out m' :
  Forall (fun c => extends_visited (snd c)) cs ->
  render_children self last cs child_indent result m = Ok (out, m') ->
  (exists rest, out = result ++ rest)
  /\ (exists added, visited m' = visited m ++ added)
  /\ (NoDup (visited m) -> NoDup (visited m')).
Proof.
  intros Hcs. revert result m.
  induction Hcs as [| [child call] cs Hc Hcs IH]; intros result m H.
  - simpl in H. apply ok_pair_inv in H. destruct H as [<- <-].
    split; [exists []; now rewrite app_nil_r |].
    split; [exists []; now rewrite app_nil_r | auto].
  - cbn [render_children] in H.
    bind_inv H as [[r m1] [Hcall H]].
    apply Hc in Hcall. destruct Hcall as [[a1 Ha1] Hnd1].
    apply IH in H. destruct H as [[rest ->] [[a2 Ha2] Hnd2]].
    split; [exists (r ++ rest); now rewrite app_assoc |].
    split; [exists (a1 ++ a2); now rewrite Ha2, Ha1, app_assoc | auto].
Qed.

Lemma is_visited_In nid m : is_visited nid m = true <-> In nid (visited m).
Proof.
  unfold is_visited. rewrite existsb_exists. split.
  - intros [x [Hx He]]. apply Z.eqb_eq in He. now subst.
  - intros H. exists nid. split; [assumption | apply Z.eqb_refl].
Qed.

Lemma NoDup_snoc (l : list Z) x : ~ In x l -> NoDup l -> NoDup (l ++ [x]).
Proof.
  intros Hx Hl. induction Hl as [| y l Hy Hl IH]; simpl.
  - constructor; [intros [] | constructor].
  - constructor.
    + rewrite in_app_iff. intros [H | [H | []]]; [contradiction |].
      subst. apply Hx. now left.
    + apply IH. intros H. apply Hx. now right.
Qed.

(** What one call of [render_frame] does to the text and to the state. *)
Lemma render_frame_spec self df node :
  forall indent child_indent m out m2,
    render_frame float_repr self df node indent child_indent m
    = Ok (out, m2) ->
    (exists added, visited m2 = visited m ++ added)
    /\ (NoDup (visited m) -> NoDup (visited m2))
    /\ ((_depth node < depth (kw self))%Z ->
        In (_hatchet_nid node) (visited m2)
        /\ (~ In (_hatchet_nid node) (visited m) ->
            exists added,
              visited m2 = visited m ++ _hatchet_nid node :: added)
        /\ exists line m1 rest,
             frame_line float_repr self df (_hatchet_nid node) indent m
             = Ok (line, m1)
             /\ out = line ++ rest).
Proof.
  induction node as [nid d cs IH] using Node_children_ind.
  intros indent child_indent m out m2 H.
  rewrite render_frame_eq in H. cbn [_depth _hatchet_nid children] in *.
  destruct (d <? depth (kw self))%Z eqn:Hd.
  2:{ apply ok_pair_inv in H. destruct H as [<- <-].
      split; [exists []; now rewrite app_nil_r |].
      split; [auto |]. intros Hlt. apply Z.ltb_lt in Hlt. congruence. }
  bind_inv H as [[line m1] [Hline H]].
  pose proof (frame_line_visited float_repr _ _ _ _ _ _ _ Hline) as Hv1.
  destruct (is_visited nid m1) eqn:Hvis; cbn [negb] in H.
  - (* already visited: the line alone *)
    apply ok_pair_inv in H. destruct H as [<- <-].
    apply is_visited_In in Hvis.
    split; [exists []; now rewrite app_nil_r, Hv1 |].
    split; [now rewrite Hv1 |]. intros _.
    split; [assumption |].
    split; [intros Hn; rewrite Hv1 in Hvis; contradiction |].
    exists line, m1, []. now rewrite app_nil_r.
  - (* first visit: mark the node, then the children *)
    assert (Hnot : ~ In nid (visited m)).
    { rewrite <- Hv1. intros Hin. apply is_visited_In in Hin. congruence. }
    apply render_children_spec in H.
    2:{ apply Forall_sorted. rewrite Forall_map.
        eapply Forall_impl; [| exact IH].
        intros c Hc. cbn [snd]. intros ci cci m' out' m'' Hcall.
        destruct (Hc ci cci m' out' m'' Hcall) as [He [Hn _]]. auto. }
    destruct H as [[rest ->] [[added Hadd] Hnd]].
    cbn [mark_visited visited] in Hadd, Hnd. rewrite Hv1 in Hadd, Hnd.
    split; [exists ([nid] ++ added); now rewrite Hadd, app_assoc |].
    split; [intros Hm; apply Hnd; now apply NoDup_snoc |].
    intros _.
    split; [rewrite Hadd, !in_app_iff; left; right; now left |].
    split; [intros _; exists added; now rewrite Hadd, <- app_assoc |].
    exists line, m1, rest. auto.
Qed.

(** One call on a node within the depth cutoff: a node that is already in
    the visited list gives its own line and nothing else; otherwise its
    id is appended to the list, which stays free of duplicates. *)
Lemma guard_at_one_call self df node indent child_indent m line m1 :
  (_depth node < depth (kw self))%Z ->
  frame_line float_repr self df (_hatchet_nid node) indent m
  = Ok (line, m1) ->
  (In (_hatchet_nid node) (visited m) ->
     render_frame float_repr self df node indent child_indent m
     = Ok (line, m1)
     /\ visited m1 = visited m)
  /\ (forall out m2,
        render_frame float_repr self df node indent child_indent m
        = Ok (out, m2) ->
        (exists rest, out = line ++ rest)
        /\ In (_hatchet_nid node) (visited m2)
        /\ (~ In (_hatchet_nid node) (visited m) ->
            exists added,
              visited m2 = visited m ++ _hatchet_nid node :: added)
        /\ (NoDup (visited m) -> NoDup (visited m2))).
Proof.
  intros Hd Hline.
  pose proof (frame_line_visited float_repr _ _ _ _ _ _ _ Hline) as Hv1.
  split.
  - intros Hin. split; [| exact Hv1].
    rewrite render_frame_eq. apply Z.ltb_lt in Hd. rewrite Hd, Hline.
    unfold bind.
    assert (Hvis : is_visited (_hatchet_nid node) m1 = true)
      by (apply is_visited_In; now rewrite Hv1).
    now rewrite Hvis.
  - intros out m2 H. apply render_frame_spec in H.
    destruct H as [_ [Hnd H]]. destruct (H Hd) as [Hin [Hfirst Hshape]].
    destruct Hshape as [line' [m1' [rest [Hline' ->]]]].
    rewrite Hline in Hline'. apply ok_pair_inv in Hline'.
    destruct Hline' as [<- <-].
    split; [now exists rest |]. auto.
Qed.

Lemma render_roots_spec self df roots :
  forall result m out m',
    render_roots float_repr self df roots result m = Ok (out, m') ->
    (exists rest, out = result ++ rest)
    /\ (exists added, visited m' = visited m ++ added)
    /\ (NoDup (visited m) -> NoDup (visited m')).
Proof.
  induction roots as [| root roots IH]; intros result m out m' H.
  - apply ok_pair_inv in H. destruct H as [<- <-].
    split; [exists []; now rewrite app_nil_r |].
    split; [exists []; now rewrite app_nil_r | auto].
  - cbn [render_roots] in H.
    bind_inv H as [[r m1] [Hroot H]].
    apply render_frame_spec in Hroot. destruct Hroot as [[a1 Ha1] [Hn1 _]].
    apply IH in H. destruct H as [[rest ->] [[a2 Ha2] Hn2]].
    split; [exists (r ++ rest); now rewrite app_assoc |].
    split; [exists (a1 ++ a2); now rewrite Ha2, Ha1, app_assoc | auto].
Qed.

(** Over a whole call the visited list only grows and stays free of
    duplicates: a node id enters it once. *)
Lemma render_keeps_visited_nodup r roots df k out r' :
  render version get_colors float_repr r (Some roots) df k = Ok (out, r') ->
  (exists added, cr_visited r' = cr_visited r ++ added)
  /\ (NoDup (cr_visited r) -> NoDup (cr_visited r')).
Proof.
  unfold render. intros H.
  bind_inv H as [self [_ H]].
  bind_inv H as [[res m] [Hroots H]].
  apply render_roots_spec in Hroots. cbn [visited] in Hroots.
  destruct Hroots as [_ Hv].
  bind_inv H as [res' [_ H]].
  destruct (cr_unicode r).
  - apply ok_pair_inv in H. destruct H as [_ <-]. exact Hv.
  - bind_inv H as [b [_ H]].
    apply ok_pair_inv in H. destruct H as [_ <-]. exact Hv.
Qed.

(** A float equal to one that is not zero is not zero. *)
Lemma eqb_nonzero_not_zero x y :
  (y =? 0)%float = false ->
  (x =? y)%float = true -> (x =? 0)%float = false.
Proof.
  rewrite !eqb_spec.
  change (Prim2SF 0) with (S754_zero false).
  unfold SFeqb, SFcompare.
  destruct (Prim2SF x) as [sx | sx | | sx mx ex],
           (Prim2SF y) as [sy | sy | | sy my ey];
    intros Hy Hxy;
    try discriminate Hy; try discriminate Hxy; try reflexivity;
    try (destruct sx; reflexivity);
    destruct sy; discriminate Hxy.
Qed.

Lemma eqb_two_not_one x :
  (x =? 2)%float = true -> (x =? 1)%float = false.
Proof.
  rewrite !eqb_spec.
  change (Prim2SF 1) with (S754_finite false 4503599627370496 (-52)).
  change (Prim2SF 2) with (S754_finite false 4503599627370496 (-51)).
  unfold SFeqb, SFcompare.
  destruct (Prim2SF x) as [sx | sx | | sx mx ex]; intros H.
  - discriminate H.
  - destruct sx; discriminate H.
  - discriminate H.
  - destruct sx; [discriminate H |].
    destruct (Z.compare_spec ex (-51)) as [He | He | He];
      try discriminate H.
    subst ex. reflexivity.
Qed.

(** C10: when the table has a [_missing_node] column, the line of a node
    is its indent, metric and name followed by the decorator and by the
    context and newline: nothing for marker 0, a space, the [left]
    colour, the left arrow and the end code for marker 1, the same with
    the [right] colour and the right arrow for marker 2. For any other
    marker no branch assigns [lr_decorator]: rendering the node raises
    instead of returning a line, with [UnboundLocalError] on
    [lr_decorator] once the metric, annotation and name parts of the
    line have been built. Whenever rendering the node returns, its
    output starts with the line. *)
Theorem missing_node_marker self df node indent child_indent m marker :
  (_depth node < depth (kw self))%Z ->
  In (u "_missing_node") (columns df) ->
  loc df (df_index self df (_hatchet_nid node)) (u "_missing_node")
  = Ok marker ->
  (forall ms ms' m1 ns,
     metric_text self df (df_index self df (_hatchet_nid node)) = Ok ms ->
     annotate float_repr self df (df_index self df (_hatchet_nid node))
       ms m = Ok (ms', m1) ->
     name_text self df (df_index self df (_hatchet_nid node)) = Ok ns ->
     let line_with (decorator : str) :=
       tail <- Notions.context_suffix float_repr self df
                 (df_index self df (_hatchet_nid node)) ;;
       Ok (indent ++ ms' ++ u " " ++ ns ++ decorator ++ tail, m1) in
     (forall x, marker = CNum x -> (x =? 0)%float = true ->
        frame_line float_repr self df (_hatchet_nid node) indent m
        = line_with [])
     /\ (forall x, marker = CNum x -> (x =? 1)%float = true ->
         frame_line float_repr self df (_hatchet_nid node) indent m
         = line_with
             (u " " ++ colors.left (colors_ self)
                ++ (if unicode self then [9664%N; 32%N] else u "< ")
                ++ colors.end_ (colors_ self)))
     /\ (forall x, marker = CNum x -> (x =? 2)%float = true ->
         frame_line float_repr self df (_hatchet_nid node) indent m
         = line_with
             (u " " ++ colors.right (colors_ self)
                ++ (if unicode self then [9654%N; 32%N] else u "> ")
                ++ colors.end_ (colors_ self)))
     /\ ((forall x, marker = CNum x ->
            (x =? 0)%float = false /\ (x =? 1)%float = false
            /\ (x =? 2)%float = false) ->
         frame_line float_repr self df (_hatchet_nid node) indent m
         = Raise (UnboundLocalError (u "lr_decorator"))
         /\ render_frame float_repr self df node indent child_indent m
            = Raise (UnboundLocalError (u "lr_decorator"))))
  /\ ((forall x, marker = CNum x ->
         (x =? 0)%float = false /\ (x =? 1)%float = false
         /\ (x =? 2)%float = false) ->
      raises (frame_line float_repr self df (_hatchet_nid node) indent m)
      /\ raises
           (render_frame float_repr self df node indent child_indent m))
  /\ (forall line s out m2,
        frame_line float_repr self df (_hatchet_nid node) indent m
        = Ok (line, s) ->
        render_frame float_repr self df node indent child_indent m
        = Ok (out, m2) ->
        exists rest, out = line ++ rest).
Proof.
  intros Hd Hcol Hloc.
  apply str_in_In in Hcol.
  assert (Hstep : forall ms ms' m1 ns,
    metric_text self df (df_index self df (_hatchet_nid node)) = Ok ms ->
    annotate float_repr self df (df_index self df (_hatchet_nid node))
      ms m = Ok (ms', m1) ->
    name_text self df (df_index self df (_hatchet_nid node)) = Ok ns ->
    frame_line float_repr self df (_hatchet_nid node) indent m
    = match lr_decorator self marker with
      | Some d =>
          tail <- Notions.context_suffix float_repr self df
                    (df_index self df (_hatchet_nid node)) ;;
          Ok (indent ++ ms' ++ u " " ++ ns ++ d ++ tail, m1)
      | None => Raise (UnboundLocalError (u "lr_decorator"))
      end).
  { intros ms ms' m1 ns Hms Hann Hns.
    unfold frame_line. rewrite Hms. unfold bind at 1. rewrite Hann.
    unfold bind at 1. rewrite Hns. unfold bind at 1. rewrite Hcol, Hloc.
    unfold bind at 2. unfold bind at 1.
    destruct (lr_decorator self marker) as [d |]; [| reflexivity].
    unfold bind at 1. unfold Notions.context_suffix.
    destruct (context_column (kw self)) as [context |].
    - destruct (str_in context (columns df)).
      + destruct (loc df (df_index self df (_hatchet_nid node)) context);
          cbn [bind]; [| reflexivity].
        now rewrite <- !app_assoc.
      + cbn [bind]. now rewrite <- !app_assoc.
    - cbn [bind]. now rewrite <- !app_assoc. }
  assert (Hnone :
    (forall x, marker = CNum x ->
       (x =? 0)%float = false /\ (x =? 1)%float = false
       /\ (x =? 2)%float = false) ->
    lr_decorator self marker = None).
  { intros Hmark. unfold lr_decorator.
    destruct marker as [s | x |]; try reflexivity.
    destruct (Hmark x eq_refl) as [H0 [H1 H2]].
    now rewrite H0, H1, H2. }
  split; [| split].
  - intros ms ms' m1 ns Hms Hann Hns line_with.
    specialize (Hstep ms ms' m1 ns Hms Hann Hns).
    split; [| split; [| split]].
    + intros x -> H0. rewrite Hstep. unfold lr_decorator. now rewrite H0.
    + intros x -> H1. rewrite Hstep. unfold lr_decorator, arrow_left.
      rewrite (eqb_nonzero_not_zero x 1 eq_refl H1), H1. reflexivity.
    + intros x -> H2. rewrite Hstep. unfold lr_decorator, arrow_right.
      rewrite (eqb_nonzero_not_zero x 2 eq_refl H2).
      rewrite (eqb_two_not_one x H2), H2. reflexivity.
    + intros Hmark. rewrite (Hnone Hmark) in Hstep.
      split; [exact Hstep |].
      rewrite render_frame_eq. pose proof Hd as Hd'.
      apply Z.ltb_lt in Hd'. rewrite Hd'. now rewrite Hstep.
  - intros Hmark.
    assert (Hraise :
      raises (frame_line float_repr self df (_hatchet_nid node) indent m)).
    { destruct (metric_text self df (df_index self df (_hatchet_nid node)))
        as [ms | e] eqn:Hms.
      2:{ exists e. unfold frame_line. now rewrite Hms. }
      destruct (annotate float_repr self df
                  (df_index self df (_hatchet_nid node)) ms m)
        as [[ms' m1] | e] eqn:Hann.
      2:{ exists e. unfold frame_line. rewrite Hms. unfold bind at 1.
          now rewrite Hann. }
      destruct (name_text self df (df_index self df (_hatchet_nid node)))
        as [ns | e] eqn:Hns.
      2:{ exists e. unfold frame_line. rewrite Hms. unfold bind at 1.
          rewrite Hann. unfold bind at 1. now rewrite Hns. }
      eexists. rewrite (Hstep ms ms' m1 ns eq_refl Hann eq_refl).
      now rewrite (Hnone Hmark). }
    split; [exact Hraise |]. now apply render_frame_line_raises.
  - intros line s out m2 Hl Hr.
    apply render_frame_spec in Hr. destruct Hr as [_ [_ Hr]].
    destruct (Hr Hd) as [_ [_ [line' [s' [rest [Hl' ->]]]]]].
    rewrite Hl in Hl'. apply ok_pair_inv in Hl'. destruct Hl' as [<- _].
    now exists rest.
Qed.

End TraversalProperties.

(* ------------------------------------------------------------------ *)
(** ** The legend *)

Section LegendProperties.

Variable version : str.
Variable get_colors : cmap_ann -> bool -> result (list str).
Variable float_repr : float -> str.

Lemma colored_scores_prefix cm ca bands legend out :
  colored_scores cm ca bands legend = Ok out ->
  exists rest, out = legend ++ rest.
Proof.
  revert legend. induction bands as [| [[i lo] hi] bands IH]; intros legend H.
  - apply ok_inv in H. subst. exists []. now rewrite app_nil_r.
  - cbn [colored_scores] in H.
    bind_inv H as [j [_ H]].
    bind_inv H as [color [_ H]].
    bind_inv H as [c [_ H]].
    apply IH in H. destruct H as [rest ->].
    eexists. rewrite <- !app_assoc. reflexivity.
Qed.

Lemma fold_left_prefix {A} (f : str -> A -> str) (l : list A) :
  (forall acc a, exists rest, f acc a = acc ++ rest) ->
  forall acc, exists rest, fold_left f l acc = acc ++ rest.
Proof.
  intros Hf. induction l as [| a l IH]; intros acc; simpl.
  - exists []. now rewrite app_nil_r.
  - destruct (Hf acc a) as [r1 ->]. destruct (IH (acc ++ r1)) as [r2 ->].
    exists (r1 ++ r2). now rewrite app_assoc.
Qed.

Lemma pattern_names_prefix legend :
  exists rest, pattern_names legend = legend ++ rest.
Proof.
  unfold pattern_names. apply fold_left_prefix.
  intros acc kv. destruct (negb (contains (u "none") (fst kv))).
  - eexists. reflexivity.
  - exists []. now rewrite app_nil_r.
Qed.

Lemma plain_scores_prefix bands legend :
  exists rest, plain_scores bands legend = legend ++ rest.
Proof.
  unfold plain_scores. apply fold_left_prefix.
  intros acc b. eexists. reflexivity.
Qed.

Lemma legend_temporal_prefix self m legend out :
  legend_temporal get_colors self m legend = Ok out ->
  exists rest, out = legend ++ rest.
Proof.
  unfold legend_temporal. intros H.
  destruct (annotation_column (kw self)) as [ann |].
  2:{ apply ok_inv in H. subst. exists []. now rewrite app_nil_r. }
  destruct (contains (u "_pattern") ann).
  2:{ apply ok_inv in H. subst. exists []. now rewrite app_nil_r. }
  destruct (temporal_symbols_set m); cbn [negb] in H; [| discriminate].
  destruct (pattern_names_prefix (legend ++ NL ++ u "Temporal Pattern"))
    as [r Hr].
  rewrite Hr in H.
  destruct (truthy_cmap (colormap_annotations (kw self))).
  - bind_inv H as [cm [_ H]].
    apply colored_scores_prefix in H. destruct H as [rest ->].
    eexists. rewrite <- !app_assoc. reflexivity.
  - apply ok_inv in H. subst out.
    destruct (plain_scores_prefix score_bands
                (((legend ++ NL ++ u "Temporal Pattern") ++ r)
                   ++ NL ++ u "Temporal Score  ")) as [r2 Hr2].
    rewrite Hr2. eexists. rewrite <- !app_assoc. reflexivity.
Qed.

Lemma top_band_0_10 swatch e :
  Spec.band swatch e 0 10 (0.9, 1.0)%float
  = swatch ++ [9608%N; 32%N] ++ e ++ u "9.00 - 10.00" ++ [10%N].
Proof.
  unfold Spec.band. do 3 f_equal.
Qed.

Lemma render_legend_succeeds self m :
  (6 <= List.length (colors.colormap (colors_ self)))%nat ->
  annotation_column (kw self) = None ->
  exists legend, render_legend get_colors self m = Ok legend.
Proof.
  intros Hlen Hann. unfold render_legend, legend_temporal. rewrite Hann.
  unfold legend_bands, render_label, getitem.
  destruct (colors.colormap (colors_ self))
    as [| c0 [| c1 [| c2 [| c3 [| c4 [| c5 l]]]]]];
    cbn [List.length] in Hlen; try lia.
  cbn [nth_error bind]. eauto.
Qed.

(** With colour on, the text of [render] ends with the legend of the
    resolved attributes. *)
Lemma render_appends_legend r roots df k out r' :
  render version get_colors float_repr r (Some roots) df k = Ok (out, r') ->
  cr_color r = true ->
  exists self body m legend,
    resolve get_colors float_repr r df k = Ok self
    /\ render_legend get_colors self m = Ok legend
    /\ match out with
       | Text s => s = body ++ legend
       | Encoded b => encode_utf8 (body ++ legend) = Ok b
       end.
Proof.
  unfold render. intros H Hcol.
  bind_inv H as [self [Hself H]].
  bind_inv H as [[body m] [_ H]].
  rewrite Hcol in H.
  bind_inv H as [text [Htext H]].
  bind_inv Htext as [legend [Hlegend Htext]].
  apply ok_inv in Htext. subst text.
  exists self, body, m, legend.
  split; [exact Hself |]. split; [exact Hlegend |].
  destruct (cr_unicode r).
  - apply ok_pair_inv in H. destruct H as [<- _]. reflexivity.
  - bind_inv H as [b [Hb H]].
    apply ok_pair_inv in H. destruct H as [<- _]. exact Hb.
Qed.

(** C9: with colour on, the text of [render] ends with the legend; a
    palette of six colours or more and no annotation column are enough
    for the legend to be produced, and every legend produced starts with
    its header, followed by exactly six bands in the order (0.9, 1.0),
    (0.7, 0.9), (0.5, 0.7), (0.3, 0.5), (0.1, 0.3), (0.0, 0.1), each one
    the palette swatch of its bucket and its two ends mapped to
    [proportion * (max - min) + min] and printed with two decimals,
    followed by the key line, and by nothing else unless there is an
    annotation column; with min 0 and max 10 the top band reads
    "9.00 - 10.00". *)
Theorem legend_bands_in_order self m :
  ((6 <= List.length (colors.colormap (colors_ self)))%nat ->
   annotation_column (kw self) = None ->
   exists legend, render_legend get_colors self m = Ok legend)
  /\ (forall legend,
        render_legend get_colors self m = Ok legend ->
        exists swatches rest,
          firstn 6 (colors.colormap (colors_ self)) = swatches
          /\ List.length swatches = 6%nat
          /\ legend
             = legend_header self
               ++ concat
                    (List.map
                       (fun sb =>
                          Spec.band (fst sb) (colors.end_ (colors_ self))
                            (min_metric self) (max_metric self) (snd sb))
                       (combine swatches Spec.bands))
               ++ legend_key self ++ rest
          /\ (annotation_column (kw self) = None -> rest = []))
  /\ List.length Spec.bands = 6%nat
  /\ (forall swatch e,
        Spec.band swatch e 0 10 (0.9, 1.0)%float
        = swatch ++ [9608%N; 32%N] ++ e ++ u "9.00 - 10.00" ++ [10%N])
  /\ (forall r roots df k out r',
        render version get_colors float_repr r (Some roots) df k
        = Ok (out, r') ->
        cr_color r = true ->
        exists self' body m' legend,
          resolve get_colors float_repr r df k = Ok self'
          /\ render_legend get_colors self' m' = Ok legend
          /\ match out with
             | Text s => s = body ++ legend
             | Encoded b => encode_utf8 (body ++ legend) = Ok b
             end).
Proof.
  split; [apply render_legend_succeeds |].
  split; [| split; [reflexivity |
                    split; [apply top_band_0_10
                           | apply render_appends_legend]]].
  unfold render_legend. intros legend H.
  bind_inv H as [bands [Hb H]].
  pose proof H as Htemporal.
  apply legend_temporal_prefix in H. destruct H as [rest ->].
  unfold legend_bands, render_label, getitem in Hb.
  destruct (colors.colormap (colors_ self))
    as [| c0 [| c1 [| c2 [| c3 [| c4 [| c5 l]]]]]];
    cbn [nth_error bind] in Hb; try discriminate Hb.
  apply ok_inv in Hb. subst bands.
  exists [c0; c1; c2; c3; c4; c5], rest.
  split; [reflexivity |]. split; [reflexivity |]. split.
  - unfold Spec.bands, Spec.band, Spec.band_value.
    cbn [combine List.map concat fst snd]. unfold NL.
    rewrite <- !app_assoc. reflexivity.
  - intros Hann. unfold legend_temporal in Htemporal.
    rewrite Hann in Htemporal. apply ok_inv in Htemporal.
    rewrite <- app_nil_r in Htemporal at 1.
    now apply app_inv_head in Htemporal.
Qed.

End LegendProperties.

(* ------------------------------------------------------------------ *)
(** ** The empty graph *)

Section EmptyGraphProperties.

Variable version : str.
Variable get_colors : cmap_ann -> bool -> result (list str).
Variable float_repr : float -> str.

Lemma text_inv (a b : str) : Text a = Text b -> a = b.
Proof. intros H. now inversion H. Qed.

(** The legend starts with a newline. *)
Lemma render_legend_head self m legend :
  render_legend get_colors self m = Ok legend ->
  exists rest, legend = 10%N :: rest.
Proof.
  unfold render_legend. intros H.
  bind_inv H as [bands [_ H]].
  apply legend_temporal_prefix in H. destruct H as [rest ->].
  unfold legend_header, NL. cbn [app]. eauto.
Qed.

(** The loop over an empty root list. *)
Lemma render_empty_list r df k :
  render version get_colors float_repr r (Some []) df k
  = (self <- resolve get_colors float_repr r df k ;;
     let header :=
       if render_header k then render_preamble version else [] in
     text <-
       (if cr_color r
        then legend <-
               render_legend get_colors self
                 {| visited := cr_visited r;
                    temporal_symbols_set := false |} ;;
             Ok (header ++ legend)
        else Ok header) ;;
     if cr_unicode r then Ok (Text text, r)
     else b <- encode_utf8 text ;; Ok (Encoded b, r)).
Proof.
  destruct r as [uni col vis]. unfold render.
  cbn [sorted fold_right render_roots cr_unicode cr_color cr_visited].
  destruct (resolve get_colors float_repr
              {| cr_unicode := uni; cr_color := col; cr_visited := vis |}
              df k) as [self | e]; [| reflexivity].
  cbn [bind visited]. reflexivity.
Qed.

(** C2 (as amended): when the root set is [None], [render] returns the
    preamble (if [render_header]) followed by the fixed message "The graph
    is empty." and two newlines, whatever the table and the other
    arguments are, so without a look at the table, and the visited list
    is as it was. An empty root list is not short-circuited: whatever the
    renderer, the table and the arguments, the call never returns that
    message, and on a renderer's first call it resolves the colours, the
    columns and the bounds from the table as for any other root list and
    returns the preamble (if any) followed by the legend when colour is
    on. *)
Theorem render_none_short_circuits :
  (forall r df k,
     exists r',
       render version get_colors float_repr r None df k
       = Ok (Text ((if render_header k then render_preamble version
                    else [])
                   ++ u "The graph is empty." ++ [10%N; 10%N]), r')
       /\ cr_visited r' = cr_visited r)
  /\ (forall r df k r',
        render version get_colors float_repr r (Some []) df k
        <> Ok (Text ((if render_header k then render_preamble version
                      else [])
                     ++ u "The graph is empty." ++ [10%N; 10%N]), r'))
  /\ (forall unicode color df k,
        render version get_colors float_repr (init unicode color)
          (Some []) df k
        = (self <-
             resolve get_colors float_repr (init unicode color) df k ;;
           let header :=
             if render_header k then render_preamble version else [] in
           text <-
             (if color
              then legend <-
                     render_legend get_colors self
                       {| visited := []; temporal_symbols_set := false |} ;;
                   Ok (header ++ legend)
              else Ok header) ;;
           if unicode then Ok (Text text, init unicode color)
           else b <- encode_utf8 text ;;
                Ok (Encoded b, init unicode color))).
Proof.
  split; [| split].
  - intros r df k. exists r. split; reflexivity.
  - intros r df k r' H. rewrite render_empty_list in H.
    bind_inv H as [self [_ H]]. cbv zeta in H.
    bind_inv H as [text [Htext H]].
    destruct (cr_unicode r).
    2:{ bind_inv H as [b [_ H]]. discriminate H. }
    apply ok_pair_inv in H. destruct H as [H _].
    apply text_inv in H. subst text.
    destruct (cr_color r).
    + bind_inv Htext as [legend [Hlegend Htext]].
      apply ok_inv in Htext. apply app_inv_head in Htext.
      apply render_legend_head in Hlegend. destruct Hlegend as [rest ->].
      apply (f_equal (@hd N 0%N)) in Htext. vm_compute in Htext.
      discriminate Htext.
    + apply ok_inv in Htext.
      apply (f_equal (@List.length N)) in Htext.
      rewrite length_app in Htext.
      assert (Hm : List.length (u "The graph is empty." ++ [10%N; 10%N])
                   = 21%nat) by reflexivity.
      rewrite Hm in Htext. clear Hm.
      destruct (render_header k); lia.
  - intros unicode color df k. apply render_empty_list.
Qed.

End EmptyGraphProperties.

(* ------------------------------------------------------------------ *)
(** ** The properties on the example inputs *)

Module Examples.

Import Fixtures.


(** C2, as first stated, fails for an empty root list: the columns are
    checked (so a table without the metric column makes the call raise),
    and on a good table the output is the empty text, not the message. *)
Lemma empty_root_list_is_rendered :
  run (init true false) (Some []) no_time options
  = Raise (KeyError (CStr (missing_column_message (u "time"))))
  /\ run (init true false) (Some []) diamond options
     = Ok (Text [], init true false).
Proof. split; vm_compute; reflexivity. Qed.

Lemma render_none_short_circuits_witness :
  exists r',
    run (init false true) None no_time options
    = Ok (Text (u "The graph is empty." ++ [10%N; 10%N]), r')
    /\ cr_visited r' = [].
Proof.
  destruct (proj1 (render_none_short_circuits Fixtures.version
                     Fixtures.get_colors Fixtures.float_repr)
              (init false true) no_time options) as [r' [H Hv]].
  exists r'. split; [exact H | exact Hv].
Defined.

(** C3 on the failing input: without unicode, a [None] root set still
    gives a [str], not [bytes]. *)
Theorem none_roots_give_str_without_unicode :
  run (init false false) None diamond options
  = Ok (Text (u "The graph is empty." ++ [10%N; 10%N]), init false false).
Proof. reflexivity. Qed.

(** C4 on the failing input: [min_value=0] is given, the data are 1, 2
    and 3, and the resolved minimum is 1. *)
Theorem zero_min_override_is_ignored :
  exists self,
    resolve Fixtures.get_colors Fixtures.float_repr (init false false)
      three_rows (with_min options (Some 0%float)) = Ok self
    /\ min_value (kw self) = Some 0%float
    /\ min_metric self = 1%float
    /\ max_metric self = 3%float.
Proof.
  eexists. split; [vm_compute; reflexivity |].
  repeat split.
Qed.

(** C5 at a negative proportion: the out-of-range colour. *)
Lemma color_bucketing_witness :
  (proportion_of_total coloured (-1) <? 0)%float = true
  /\ _ansi_color_for_metric coloured (-1)%float = Ok (ESC ++ u "[34m").
Proof.
  assert (H : (proportion_of_total coloured (-1) <? 0)%float = true)
    by (vm_compute; reflexivity).
  split; [exact H |].
  exact (proj1 (proj2 (proj2 (color_bucketing coloured (-1)%float))) H).
Defined.



(** C7, as first stated, fails when the colour set-up raises first: the
    metric column [time] is absent, and the error names the annotation
    column. *)
Lemma error_can_name_annotation_column :
  resolve_metrics (metric_column options) = Ok (u "time", None)
  /\ ~ In (u "time") (columns no_time)
  /\ run (init false true) (Some [leaf]) no_time
       (with_annotation options (Some (u "ann")) (CA_List palette))
     = Raise (KeyError (CStr (u "ann"))).
Proof.
  split; [reflexivity |]. split.
  - intros H. apply str_in_In in H. vm_compute in H. discriminate H.
  - vm_compute. reflexivity.
Qed.

Lemma missing_metric_column_fails_witness :
  resolve_metrics (metric_column options) = Ok (u "time", None)
  /\ ~ In (u "time") (columns no_time)
  /\ forall roots,
       run (init false false) (Some roots) no_time options
       = Raise (KeyError (CStr (missing_column_message (u "time")))).
Proof.
  assert (Hm : resolve_metrics (metric_column options)
               = Ok (u "time", None)) by reflexivity.
  assert (Hn : ~ In (u "time") (columns no_time)).
  { intros H. apply str_in_In in H. vm_compute in H. discriminate H. }
  split; [exact Hm |]. split; [exact Hn |].
  destruct (missing_metric_column_fails Fixtures.version Fixtures.get_colors
              Fixtures.float_repr (init false false) no_time options
              (u "time") None Hm (or_introl Hn)) as [_ H].
  destruct (H (colors_disabled, None, None) eq_refl)
    as [name [[-> | Hs] [_ [_ Hr]]]]; [exact Hr | discriminate Hs].
Defined.

Lemma long_names_are_collapsed_witness :
  expand_name (kw plain) = false
  /\ (39 < List.length long_name)%nat
  /\ display_name plain long_name
     = u "solver::ConjugateG...>::iterate_until()".
Proof.
  assert (He : expand_name (kw plain) = false) by reflexivity.
  assert (Hl : (39 < List.length long_name)%nat) by (vm_compute; lia).
  split; [exact He |]. split; [exact Hl |].
  destruct (long_names_are_collapsed Fixtures.float_repr plain long_name He)
    as [H _].
  destruct (H Hl) as [-> _]. vm_compute. reflexivity.
Defined.

Lemma legend_bands_in_order_witness :
  (6 <= List.length (colors.colormap (colors_ coloured)))%nat
  /\ annotation_column (kw coloured) = None
  /\ exists legend swatches rest,
       render_legend Fixtures.get_colors coloured start = Ok legend
       /\ swatches = firstn 6 palette
       /\ legend
          = legend_header coloured
            ++ concat
                 (List.map
                    (fun sb =>
                       Spec.band (fst sb) (ESC ++ u "[0m") 0 10 (snd sb))
                    (combine swatches Spec.bands))
            ++ legend_key coloured ++ rest.
Proof.
  assert (H6 : (6 <= List.length (colors.colormap (colors_ coloured)))%nat)
    by (vm_compute; lia).
  assert (Ha : annotation_column (kw coloured) = None) by reflexivity.
  split; [exact H6 |]. split; [exact Ha |].
  destruct (legend_bands_in_order Fixtures.version Fixtures.get_colors
              Fixtures.float_repr coloured start)
    as [Hok [Hshape _]].
  destruct (Hok H6 Ha) as [legend Hl].
  destruct (Hshape legend Hl) as [swatches [rest [Hs [_ [Hlegend _]]]]].
  exists legend, swatches, rest.
  split; [exact Hl |]. split; [now rewrite <- Hs |]. exact Hlegend.
Defined.

Lemma missing_node_marker_witness :
  frame_line Fixtures.float_repr plain diffed (_hatchet_nid leaf) [] start
  = Ok (u "1.00 both" ++ NL, start)
  /\ frame_line Fixtures.float_repr plain diffed (_hatchet_nid A)
       (u "|- ") start
     = Ok (u "|- 2.00 gone < " ++ NL, start)
  /\ frame_line Fixtures.float_repr coloured_unicode diffed
       (_hatchet_nid B) [] start
     = Ok (ESC ++ u "[38;5;34m" ++ u "3.00" ++ ESC ++ u "[0m" ++ u " "
             ++ u "new" ++ ESC ++ u "[0m" ++ u " " ++ ESC ++ u "[38;5;28m"
             ++ [9654%N; 32%N] ++ ESC ++ u "[0m" ++ NL, start)
  /\ render_frame Fixtures.float_repr plain marked leaf [] [] start
     = Raise (UnboundLocalError (u "lr_decorator")).
Proof.
  assert (Hc : In (u "_missing_node") (columns diffed))
    by (apply str_in_In; vm_compute; reflexivity).
  assert (Hc3 : In (u "_missing_node") (columns marked))
    by (apply str_in_In; vm_compute; reflexivity).
  split; [| split; [| split]].
  - destruct (missing_node_marker Fixtures.float_repr plain diffed leaf
                [] [] start (CNum 0)) as [H _];
      [vm_compute; reflexivity | exact Hc | vm_compute; reflexivity |].
    destruct (H (u "1.00") (u "1.00") start (u "both")) as [H0 _];
      [vm_compute; reflexivity | vm_compute; reflexivity
      | vm_compute; reflexivity |].
    rewrite (H0 0%float eq_refl eq_refl). vm_compute. reflexivity.
  - destruct (missing_node_marker Fixtures.float_repr plain diffed A
                (u "|- ") [] start (CNum 1)) as [H _];
      [vm_compute; reflexivity | exact Hc | vm_compute; reflexivity |].
    destruct (H (u "2.00") (u "2.00") start (u "gone")) as [_ [H1 _]];
      [vm_compute; reflexivity | vm_compute; reflexivity
      | vm_compute; reflexivity |].
    rewrite (H1 1%float eq_refl eq_refl). vm_compute. reflexivity.
  - destruct (missing_node_marker Fixtures.float_repr coloured_unicode
                diffed B [] [] start (CNum 2)) as [H _];
      [vm_compute; reflexivity | exact Hc | vm_compute; reflexivity |].
    destruct (H (ESC ++ u "[38;5;34m" ++ u "3.00" ++ ESC ++ u "[0m")
                (ESC ++ u "[38;5;34m" ++ u "3.00" ++ ESC ++ u "[0m") start
                (u "new" ++ ESC ++ u "[0m")) as [_ [_ [H2 _]]];
      [vm_compute; reflexivity | vm_compute; reflexivity
      | vm_compute; reflexivity |].
    rewrite (H2 2%float eq_refl eq_refl). vm_compute. reflexivity.
  - destruct (missing_node_marker Fixtures.float_repr plain marked leaf
                [] [] start (CNum 3)) as [H _];
      [vm_compute; reflexivity | exact Hc3 | vm_compute; reflexivity |].
    destruct (H (u "1.00") (u "1.00") start (u "main")) as [_ [_ [_ H3]]];
      [vm_compute; reflexivity | vm_compute; reflexivity
      | vm_compute; reflexivity |].
    apply H3. intros x Hx. injection Hx as <-.
    repeat split; vm_compute; reflexivity.
Defined.

End Examples.

(* ------------------------------------------------------------------ *)
(** ** The normalisation bounds and the data *)

Section BoundsProperties.

Import Notions.

Variable get_colors : cmap_ann -> bool -> result (list str).
Variable float_repr : float -> str.

Lemma SFleb_trans x y z :
  SFleb x y = true -> SFleb y z = true -> SFleb x z = true.
Proof.
  unfold SFleb, SFcompare.
  destruct x as [sx | sx | | sx mx ex], y as [sy | sy | | sy my ey],
           z as [sz | sz | | sz mz ez];
    try destruct sx; try destruct sy; try destruct sz;
    try (intros; reflexivity); try (intros; discriminate);
    change (Pos.compare_cont Eq) with Pos.compare;
    intros H1 H2.
  all: destruct (Z.compare_spec ex ey); destruct (Z.compare_spec ey ez);
    destruct (Z.compare_spec ex ez);
    try lia; try reflexivity; try discriminate.
  all: destruct (Pos.compare_spec mx my); destruct (Pos.compare_spec my mz);
    destruct (Pos.compare_spec mx mz);
    try lia; try reflexivity; try discriminate.
Qed.

Lemma SFltb_leb x y : SFltb x y = true -> SFleb x y = true.
Proof.
  unfold SFltb, SFleb. now destruct (SFcompare x y) as [[| |] |].
Qed.

Lemma SFleb_total x y :
  sf_number x = true -> sf_number y = true ->
  SFltb x y = false -> SFleb y x = true.
Proof.
  unfold SFltb, SFleb, SFcompare.
  destruct x as [sx | sx | | sx mx ex], y as [sy | sy | | sy my ey];
    try destruct sx; try destruct sy;
    try (intros; reflexivity); try (intros; discriminate);
    change (Pos.compare_cont Eq) with Pos.compare;
    intros _ _ H.
  all: destruct (Z.compare_spec ex ey); destruct (Z.compare_spec ey ex);
    try lia; try reflexivity; try discriminate.
  all: destruct (Pos.compare_spec mx my); destruct (Pos.compare_spec my mx);
    try lia; try reflexivity; try discriminate.
Qed.

Lemma SFleb_refl x : sf_number x = true -> SFleb x x = true.
Proof.
  unfold SFleb, SFcompare.
  destruct x as [sx | sx | | sx mx ex]; try destruct sx;
    try (intros; reflexivity); try (intros; discriminate); intros _;
    now rewrite Z.compare_refl, Pos.compare_cont_refl.
Qed.

Lemma finite_is_number x : is_finite x = true -> sf_number (Prim2SF x) = true.
Proof.
  unfold is_finite, is_nan. rewrite eqb_spec.
  destruct (Prim2SF x) as [s | s | | s m e]; try reflexivity.
  intros H. discriminate H.
Qed.

Local Abbreviation le x y := ((x <=? y)%float = true).

Lemma le_trans x y z : le x y -> le y z -> le x z.
Proof. rewrite !leb_spec. apply SFleb_trans. Qed.

Lemma lt_le x y : (x <? y)%float = true -> le x y.
Proof. rewrite ltb_spec, leb_spec. apply SFltb_leb. Qed.

Lemma not_lt_le x y :
  is_finite x = true -> is_finite y = true ->
  (x <? y)%float = false -> le y x.
Proof.
  rewrite ltb_spec, leb_spec. intros Hx Hy.
  apply SFleb_total; now apply finite_is_number.
Qed.

Lemma le_refl x : is_finite x = true -> le x x.
Proof.
  rewrite leb_spec. intros Hx.
  apply SFleb_refl. now apply finite_is_number.
Qed.

Lemma fold_max_spec l : forall acc,
  is_finite acc = true ->
  Forall (fun y => is_finite y = true) l ->
  let r := fold_left (fun acc y => if (acc <? y)%float then y else acc) l acc in
  le acc r /\ Forall (fun y => le y r) l /\ In r (acc :: l).
Proof.
  induction l as [| y l IH]; intros acc Hacc Hl; cbn [fold_left].
  - split; [now apply le_refl |]. split; [constructor | now left].
  - inversion Hl as [| ? ? Hy Hl']; subst.
    destruct (acc <? y)%float eqn:Hlt.
    + destruct (IH y Hy Hl') as [H1 [H2 H3]].
      split; [eapply le_trans; [apply lt_le; exact Hlt | exact H1] |].
      split; [constructor; assumption |].
      destruct H3 as [H3 | H3]; [right; left; exact H3 | right; right; exact H3].
    + destruct (IH acc Hacc Hl') as [H1 [H2 H3]].
      split; [exact H1 |].
      split; [constructor; [| assumption] |].
      * eapply le_trans; [| exact H1]. now apply not_lt_le.
      * destruct H3 as [H3 | H3]; [left; exact H3 | right; right; exact H3].
Qed.

Lemma fold_min_spec l : forall acc,
  is_finite acc = true ->
  Forall (fun y => is_finite y = true) l ->
  let r := fold_left (fun acc y => if (y <? acc)%float then y else acc) l acc in
  le r acc /\ Forall (fun y => le r y) l /\ In r (acc :: l).
Proof.
  induction l as [| y l IH]; intros acc Hacc Hl; cbn [fold_left].
  - split; [now apply le_refl |]. split; [constructor | now left].
  - inversion Hl as [| ? ? Hy Hl']; subst.
    destruct (y <? acc)%float eqn:Hlt.
    + destruct (IH y Hy Hl') as [H1 [H2 H3]].
      split; [eapply le_trans; [exact H1 | apply lt_le; exact Hlt] |].
      split; [constructor; assumption |].
      destruct H3 as [H3 | H3]; [right; left; exact H3 | right; right; exact H3].
    + destruct (IH acc Hacc Hl') as [H1 [H2 H3]].
      split; [exact H1 |].
      split; [constructor; [| assumption] |].
      * eapply le_trans; [exact H1 |]. now apply not_lt_le.
      * destruct H3 as [H3 | H3]; [left; exact H3 | right; right; exact H3].
Qed.

Lemma series_bounds l x :
  Forall (fun y => is_finite y = true) l ->
  In x l ->
  le (series_min l) x /\ le x (series_max l)
  /\ In (series_min l) l /\ In (series_max l) l.
Proof.
  intros Hl Hx. destruct l as [| a l]; [contradiction |].
  inversion Hl as [| ? ? Ha Hl']; subst.
  destruct (fold_max_spec l a Ha Hl') as [M1 [M2 M3]].
  destruct (fold_min_spec l a Ha Hl') as [N1 [N2 N3]].
  cbn [series_min series_max].
  rewrite Forall_forall in M2, N2.
  destruct Hx as [-> | Hx]; auto.
Qed.

Lemma numeric_values_In cs : forall vs x,
  numeric_values cs = Ok vs -> In (CNum x) cs -> In x vs.
Proof.
  induction cs as [| c cs IH]; intros vs x H Hin; [contradiction |].
  cbn [numeric_values] in H.
  bind_inv H as [y [Hy H]]. bind_inv H as [ys [Hys H]].
  apply ok_inv in H. subst vs.
  destruct Hin as [-> | Hin].
  - cbn in Hy. apply ok_inv in Hy. subst. now left.
  - right. now apply (IH ys).
Qed.

Lemma resolve_ok r df k self :
  resolve get_colors float_repr r df k = Ok self ->
  exists second filtered,
    resolve_metrics (metric_column k) = Ok (primary_metric self, second)
    /\ filtered_series df k (primary_metric self) = Ok filtered
    /\ str_in (primary_metric self) (columns df) = true
    /\ max_metric self = resolve_max k filtered
    /\ min_metric self = resolve_min k filtered
    /\ kw self = k.
Proof.
  unfold resolve. intros H.
  bind_inv H as [[[c ca] mp] [_ H]].
  bind_inv H as [[primary second] [Hm H]].
  bind_inv H as [[] [Hc H]].
  bind_inv H as [filtered [Hf H]].
  apply ok_inv in H. subst self. cbn.
  exists second, filtered. repeat split; try assumption.
  unfold check_columns in Hc.
  destruct (str_in primary (columns df)); [reflexivity | discriminate Hc].
Qed.

(** X1: without an override that counts (none given, or a zero), the
    resolved minimum is at most, and the resolved maximum at least, every
    finite value of the primary metric column (of the configured rank,
    when the index has a rank level); a bound that brackets such a value
    is itself finite. Nothing is said of a column without a finite value,
    where the bounds are NaN. *)
Theorem bounds_bracket_finite_data r df k self key x :
  resolve get_colors float_repr r df k = Ok self ->
  In key (index df) ->
  (str_in (u "rank") (index_names df) = true -> k_rank key = Some (rank k)) ->
  cells df key (primary_metric self) = CNum x ->
  is_finite x = true ->
  (truthy_num (min_value k) = false ->
     (min_metric self <=? x)%float = true
     /\ is_finite (min_metric self) = true)
  /\ (truthy_num (max_value k) = false ->
      (x <=? max_metric self)%float = true
      /\ is_finite (max_metric self) = true).
Proof.
  intros Hres Hkey Hrank Hcell Hfin.
  destruct (resolve_ok r df k self Hres)
    as [second [filtered [_ [Hf [Hcol [Hmax [Hmin _]]]]]]].
  assert (Hin : In x filtered).
  { unfold filtered_series in Hf.
    bind_inv Hf as [series [Hs Hf]]. bind_inv Hf as [values [Hv Hf]].
    apply ok_inv in Hf. subst filtered.
    apply filter_In. split; [| exact Hfin].
    apply (numeric_values_In series values x Hv).
    rewrite <- Hcell.
    destruct (str_in (u "rank") (index_names df)) eqn:Hr.
    - unfold xs in Hs.
      assert (Hk : In key (filter (fun k0 => opt_eqb (k_rank k0) (Some (rank k)))
                             (index df))).
      { apply filter_In. split; [exact Hkey |].
        rewrite (Hrank eq_refl). cbn. apply Z.eqb_refl. }
      destruct (filter (fun k0 => opt_eqb (k_rank k0) (Some (rank k)))
                       (index df)) as [| k0 rows] eqn:Hrows;
        [contradiction |].
      rewrite Hcol in Hs. apply ok_inv in Hs. subst series.
      now apply (in_map (fun k1 => cells df k1 (primary_metric self))) in Hk.
    - unfold column in Hs. rewrite Hcol in Hs. apply ok_inv in Hs.
      subst series.
      now apply (in_map (fun k1 => cells df k1 (primary_metric self))) in Hkey. }
  assert (Hall : Forall (fun y => is_finite y = true) filtered).
  { unfold filtered_series in Hf.
    bind_inv Hf as [series [Hs Hf]]. bind_inv Hf as [values [Hv Hf]].
    apply ok_inv in Hf. subst filtered.
    apply Forall_forall. intros y Hy. now apply filter_In in Hy. }
  destruct (series_bounds filtered x Hall Hin) as [B1 [B2 [B3 B4]]].
  rewrite Forall_forall in Hall.
  split; intros Ht.
  - rewrite Hmin. unfold resolve_min. rewrite Ht. auto.
  - rewrite Hmax. unfold resolve_max. rewrite Ht. auto.
Qed.

End BoundsProperties.

(* ------------------------------------------------------------------ *)
(** ** Further basic facts *)

Section MoreFacts.

Variable get_colors : cmap_ann -> bool -> result (list str).
Variable float_repr : float -> str.

Lemma In_insert {A} (leb : A -> A -> bool) x y l :
  In y (insert leb x l) <-> y = x \/ In y l.
Proof.
  induction l as [| z l IH]; cbn [insert].
  - cbn. intuition congruence.
  - destruct (leb x z); cbn [In]; [intuition congruence |].
    rewrite IH. intuition congruence.
Qed.

Lemma In_sorted {A} (leb : A -> A -> bool) y l :
  In y (sorted leb l) <-> In y l.
Proof.
  induction l as [| x l IH]; cbn [sorted fold_right]; [tauto |].
  fold (sorted leb l). rewrite In_insert, IH. cbn. intuition congruence.
Qed.


Lemma resolve_kw r df k self :
  resolve get_colors float_repr r df k = Ok self -> kw self = k.
Proof.
  unfold resolve. intros H.
  bind_inv H as [[[c ca] mp] [_ H]].
  bind_inv H as [[primary second] [_ H]].
  bind_inv H as [[] [_ H]].
  bind_inv H as [filtered [_ H]].
  apply ok_inv in H. now subst self.
Qed.



(** What [resolve] leaves in the colour attributes. *)
Lemma resolve_colors r df k self :
  resolve get_colors float_repr r df k = Ok self ->
  setup_colors get_colors float_repr r df k
  = Ok (colors_ self, colors_annotations self,
        colors_annotations_mapping self)
  /\ kw self = k.
Proof.
  unfold resolve. intros H.
  bind_inv H as [[[c ca] mp] [Hc H]].
  bind_inv H as [[primary second] [_ H]].
  bind_inv H as [[] [_ H]].
  bind_inv H as [filtered [_ H]].
  apply ok_inv in H. subst self. cbn. auto.
Qed.

End MoreFacts.

(* ------------------------------------------------------------------ *)
(** ** A renderer used twice *)

Section ReuseProperties.

Import Notions.

Variable version : str.
Variable get_colors : cmap_ann -> bool -> result (list str).
Variable float_repr : float -> str.

(** Roots that are within the depth cutoff and already in the visited
    list contribute their own lines and nothing else. *)
Lemma render_roots_visited self df roots : forall result m,
  Forall (fun n => (_depth n < depth (kw self))%Z
                   /\ In (_hatchet_nid n) (visited m)) roots ->
  render_roots float_repr self df roots result m
  = root_lines float_repr self df roots result m.
Proof.
  induction roots as [| root roots IH]; intros result m Hall; [reflexivity |].
  inversion Hall as [| ? ? [Hd Hin] Hrest]; subst.
  cbn [render_roots root_lines]. rewrite render_frame_eq.
  apply Z.ltb_lt in Hd. rewrite Hd.
  destruct (frame_line float_repr self df (_hatchet_nid root) [] m)
    as [[line m1] | e] eqn:Hline; [| reflexivity].
  pose proof (frame_line_visited float_repr _ _ _ _ _ _ _ Hline) as Hv.
  cbn [bind].
  assert (Hvis : is_visited (_hatchet_nid root) m1 = true)
    by (apply is_visited_In; now rewrite Hv).
  rewrite Hvis. cbn [negb bind]. apply IH.
  eapply Forall_impl; [| exact Hrest].
  intros n [Hn1 Hn2]. split; [exact Hn1 | now rewrite Hv].
Qed.

(** After the loop over the roots, every root within the cutoff is in the
    visited list. *)
Lemma render_roots_marks self df roots : forall result m out m',
  render_roots float_repr self df roots result m = Ok (out, m') ->
  Forall (fun n => (_depth n < depth (kw self))%Z ->
                   In (_hatchet_nid n) (visited m')) roots.
Proof.
  induction roots as [| root roots IH]; intros result m out m' H;
    [constructor |].
  cbn [render_roots] in H.
  bind_inv H as [[r m1] [Hroot H]].
  pose proof (render_roots_spec float_repr _ _ _ _ _ _ _ H)
    as [_ [[added Hadd] _]].
  constructor; [| exact (IH _ _ _ _ H)].
  intros Hd. apply render_frame_spec in Hroot.
  destruct Hroot as [_ [_ Hroot]]. destruct (Hroot Hd) as [Hin _].
  rewrite Hadd, in_app_iff. now left.
Qed.

Lemma resolve_same_flags r r' df k :
  cr_unicode r' = cr_unicode r -> cr_color r' = cr_color r ->
  resolve get_colors float_repr r' df k
  = resolve get_colors float_repr r df k.
Proof.
  intros Hu Hc. unfold resolve, setup_colors. now rewrite Hu, Hc.
Qed.

Lemma render_keeps_flags r roots df k out r' :
  render version get_colors float_repr r roots df k = Ok (out, r') ->
  cr_unicode r' = cr_unicode r /\ cr_color r' = cr_color r.
Proof.
  unfold render. destruct roots as [roots |]; intros H.
  - bind_inv H as [self [_ H]]. bind_inv H as [[res m] [_ H]].
    bind_inv H as [res' [_ H]].
    destruct (cr_unicode r) eqn:Hu.
    + apply ok_pair_inv in H. destruct H as [_ <-]. auto.
    + bind_inv H as [b [_ H]]. apply ok_pair_inv in H.
      destruct H as [_ <-]. auto.
  - apply ok_pair_inv in H. destruct H as [_ <-]. auto.
Qed.

(** X2: the visited list is never reset. After a call of [render] that
    returned, a second call on the same renderer with the same root set,
    table and arguments resolves the same attributes, and its traversal
    emits only the lines of the roots: every root is already in the
    visited list, so no child is rendered. *)
Theorem second_render_prints_roots_only r roots df k out r' :
  render version get_colors float_repr r (Some roots) df k = Ok (out, r') ->
  Forall (fun n => (_depth n < depth k)%Z) roots ->
  exists self,
    resolve get_colors float_repr r df k = Ok self
    /\ resolve get_colors float_repr r' df k = Ok self
    /\ Forall (fun n => In (_hatchet_nid n) (cr_visited r')) roots
    /\ forall result symbols,
         render_roots float_repr self df (sorted node_leb roots) result
           {| visited := cr_visited r'; temporal_symbols_set := symbols |}
         = root_lines float_repr self df (sorted node_leb roots) result
             {| visited := cr_visited r'; temporal_symbols_set := symbols |}.
Proof.
  intros H Hdepth.
  destruct (render_keeps_flags _ _ _ _ _ _ H) as [Hu Hc].
  pose proof (resolve_same_flags r r' df k Hu Hc) as Hres.
  unfold render in H.
  bind_inv H as [self [Hself H]]. bind_inv H as [[res m] [Hroots H]].
  assert (Hv : cr_visited r' = visited m).
  { bind_inv H as [res' [_ H]]. destruct (cr_unicode r).
    - apply ok_pair_inv in H. destruct H as [_ <-]. reflexivity.
    - bind_inv H as [b [_ H]]. apply ok_pair_inv in H.
      destruct H as [_ <-]. reflexivity. }
  pose proof (resolve_kw get_colors float_repr r df k self Hself) as Hkw.
  pose proof (render_roots_marks _ _ _ _ _ _ _ Hroots) as Hmarks.
  rewrite Forall_forall in Hmarks, Hdepth.
  assert (Hin : forall n, In n roots -> In (_hatchet_nid n) (cr_visited r')).
  { intros n Hn. rewrite Hv. apply Hmarks.
    - now apply In_sorted.
    - rewrite Hkw. now apply Hdepth. }
  exists self. split; [exact Hself |]. split; [now rewrite Hres |].
  split; [now apply Forall_forall |].
  intros result symbols. apply render_roots_visited.
  apply Forall_forall. intros n Hn. apply In_sorted in Hn. cbn [visited].
  split; [rewrite Hkw; now apply Hdepth | now apply Hin].
Qed.

End ReuseProperties.

(* ------------------------------------------------------------------ *)
(** ** The annotation overlay and its palette *)

Section AnnotationProperties.

Variable get_colors : cmap_ann -> bool -> result (list str).
Variable float_repr : float -> str.

Lemma list_index_In x l :
  In x l -> exists i, list_index x l = Ok i /\ (i < List.length l)%nat.
Proof.
  induction l as [| y l IH]; intros H; [contradiction |].
  cbn [list_index List.length].
  destruct (str_eqb y x) eqn:E.
  - exists 0%nat. split; [reflexivity | lia].
  - destruct H as [H | H].
    + subst. rewrite str_eqb_refl in E. discriminate E.
    + destruct (IH H) as [i [Hi Hlt]]. rewrite Hi. cbn [bind].
      exists (S i). split; [reflexivity | lia].
Qed.

Lemma list_index_not_In x l :
  ~ In x l -> list_index x l = Raise ValueError.
Proof.
  induction l as [| y l IH]; intros H; [reflexivity |].
  cbn [list_index].
  destruct (str_eqb y x) eqn:E.
  - apply str_eqb_eq in E. exfalso. apply H. now left.
  - rewrite IH; [reflexivity |]. intros Hin. apply H. now right.
Qed.

Lemma palette_color_ok palette mapping value :
  palette <> [] -> In value mapping ->
  exists c, palette_color palette mapping value = Ok c /\ In c palette.
Proof.
  unfold palette_color. intros Hp Hin.
  destruct (list_index_In value mapping Hin) as [i [-> _]].
  cbn [bind]. unfold py_mod.
  destruct (List.length palette) as [| n] eqn:Hn.
  - destruct palette; [congruence | discriminate Hn].
  - cbn [bind]. unfold getitem.
    assert (Hlt : (i mod S n < List.length palette)%nat)
      by (rewrite Hn; apply Nat.mod_upper_bound; lia).
    destruct (nth_error palette (i mod S n)) as [c |] eqn:E.
    + exists c. split; [reflexivity |]. eapply nth_error_In. exact E.
    + apply nth_error_None in E. lia.
Qed.

(** X3: the colour of an annotation value in a palette,
    [palette[mapping.index(value) % len(palette)]], is always an entry of
    the palette when the palette is not empty and the value is in the
    mapping; the subscript is never out of range. A value outside the
    mapping raises [ValueError], an empty palette [ZeroDivisionError]. *)
Theorem palette_color_spec palette mapping value :
  (palette <> [] -> In value mapping ->
     exists c, palette_color palette mapping value = Ok c /\ In c palette)
  /\ (~ In value mapping ->
      palette_color palette mapping value = Raise ValueError)
  /\ (palette = [] -> In value mapping ->
      palette_color palette mapping value = Raise ZeroDivisionError)
  /\ palette_color palette mapping value <> Raise IndexError.
Proof.
  split; [apply palette_color_ok |]. split; [| split].
  - intros Hn. unfold palette_color.
    now rewrite (list_index_not_In value mapping Hn).
  - intros -> Hin. unfold palette_color.
    destruct (list_index_In value mapping Hin) as [i [-> _]].
    reflexivity.
  - destruct (in_dec (list_eq_dec N.eq_dec) value mapping) as [Hin | Hn].
    + destruct palette as [| p0 ps] eqn:Hpal.
      * unfold palette_color.
        destruct (list_index_In value mapping Hin) as [i [-> _]].
        cbn. discriminate.
      * destruct (palette_color_ok (p0 :: ps) mapping value) as [c [Hc _]];
          [discriminate | exact Hin |].
        rewrite Hc. discriminate.
    + unfold palette_color.
      rewrite (list_index_not_In value mapping Hn). cbn. discriminate.
Qed.


(** X5: the annotation colour scheme is assigned only when colour is on.
    On the first call of a renderer built with colour off, a configured
    annotation colour mapping makes the annotation of every row raise
    [AttributeError] (outside the temporal-pattern mode), so no node
    within the depth cutoff can be rendered. *)
Theorem annotation_colormap_without_color unicode df k self ann :
  resolve get_colors float_repr (init unicode false) df k = Ok self ->
  annotation_column k = Some ann ->
  contains (u "_pattern") ann = false ->
  truthy_cmap (colormap_annotations k) = true ->
  (forall key c,
     loc df key ann = Ok c ->
     annotation_text float_repr self df key ann
     = Raise (AttributeError
                match colormap_annotations k with
                | CA_Dict _ => u "colors_annotations_mapping"
                | _ => u "colors_annotations"
                end))
  /\ (forall node indent child_indent m,
        (_depth node < depth k)%Z ->
        raises (render_frame float_repr self df node indent child_indent m)).
Proof.
  intros Hres Hann Hpat Ht.
  destruct (resolve_colors get_colors float_repr _ df k self Hres)
    as [Hsetup Hkw].
  unfold setup_colors in Hsetup. cbn [init cr_color] in Hsetup.
  apply ok_inv in Hsetup. inversion Hsetup as [[Hc Hca Hmp]].
  assert (Htext : forall key c,
     loc df key ann = Ok c ->
     annotation_text float_repr self df key ann
     = Raise (AttributeError
                match colormap_annotations k with
                | CA_Dict _ => u "colors_annotations_mapping"
                | _ => u "colors_annotations"
                end)).
  { intros key c Hloc. unfold annotation_text.
    rewrite Hloc. cbn [bind]. rewrite Hpat, Hkw, Ht, <- Hca, <- Hmp.
    destruct (colormap_annotations k); reflexivity. }
  split; [exact Htext |].
  intros node indent child_indent m Hd.
  apply render_frame_line_raises; [now rewrite Hkw |].
  unfold frame_line.
  destruct (metric_text self df (df_index self df (_hatchet_nid node)))
    as [ms | e]; [| now exists e].
  cbn [bind]. apply raises_bind. unfold annotate. rewrite Hkw, Hann.
  apply raises_bind.
  destruct (loc df (df_index self df (_hatchet_nid node)) ann)
    as [c | e] eqn:Hloc.
  - rewrite (Htext _ c Hloc). eexists. reflexivity.
  - exists e. unfold annotation_text. now rewrite Hloc.
Qed.

End AnnotationProperties.

(* ------------------------------------------------------------------ *)
(** ** The root set: order and depth cutoff *)

Section RootSetProperties.

Variable version : str.
Variable get_colors : cmap_ann -> bool -> result (list str).
Variable float_repr : float -> str.

(** Insertion by an integer key: two elements with different keys can be
    inserted in either order. *)
Lemma insert_key_comm {A} (key : A -> Z) (x y : A) l :
  key x <> key y ->
  insert (fun a b => (key a <=? key b)%Z) x
    (insert (fun a b => (key a <=? key b)%Z) y l)
  = insert (fun a b => (key a <=? key b)%Z) y
      (insert (fun a b => (key a <=? key b)%Z) x l).
Proof.
  intros Hne.
  induction l as [| z l IH]; cbn [insert].
  - destruct (Z.leb_spec (key x) (key y)), (Z.leb_spec (key y) (key x));
      try reflexivity; lia.
  - destruct (Z.leb_spec (key y) (key z)), (Z.leb_spec (key x) (key z));
      cbn [insert];
      repeat match goal with
             | |- context [(?a <=? ?b)%Z] => destruct (Z.leb_spec a b)
             end;
      try reflexivity; try lia.
    now rewrite IH.
Qed.

(** Sorting by a key that tells the elements apart does not depend on
    the order of the input. *)
Lemma sorted_key_perm {A} (key : A -> Z) (l l' : list A) :
  Permutation l l' ->
  NoDup (List.map key l) ->
  sorted (fun a b => (key a <=? key b)%Z) l
  = sorted (fun a b => (key a <=? key b)%Z) l'.
Proof.
  intros Hp.
  induction Hp as [| x t t' Hp IH | x y t | t t' t'' Hp1 IH1 Hp2 IH2];
    intros Hnd.
  - reflexivity.
  - cbn [sorted fold_right].
    cbn [List.map] in Hnd. inversion Hnd; subst.
    unfold sorted in IH. now rewrite IH.
  - cbn [sorted fold_right].
    apply insert_key_comm.
    cbn [List.map] in Hnd. inversion Hnd as [| ? ? Hy _]; subst.
    intros E. apply Hy. left. now symmetry.
  - rewrite IH1 by exact Hnd. apply IH2.
    eapply Permutation_NoDup; [| exact Hnd]. now apply Permutation_map.
Qed.

(** X6: the roots are rendered in ascending order of their ids whatever
    the order in which they are passed: two root lists that are
    permutations of each other, with distinct ids, give the same result. *)
Theorem render_ignores_root_order r roots roots' df k :
  Permutation roots roots' ->
  NoDup (List.map _hatchet_nid roots) ->
  render version get_colors float_repr r (Some roots) df k
  = render version get_colors float_repr r (Some roots') df k.
Proof.
  intros Hp Hnd. unfold render.
  change node_leb
    with (fun a b => (_hatchet_nid a <=? _hatchet_nid b)%Z).
  now rewrite (sorted_key_perm _hatchet_nid roots roots' Hp Hnd).
Qed.

(** X11: the children of a node are rendered in ascending order of their
    ids whatever their order in [node.children]: two nodes that differ by
    a permutation of their children, with distinct ids, render alike. *)
Theorem render_ignores_child_order self df nid d cs cs' :
  Permutation cs cs' ->
  NoDup (List.map _hatchet_nid cs) ->
  forall indent child_indent m,
    render_frame float_repr self df (mkNode nid d cs) indent child_indent m
    = render_frame float_repr self df (mkNode nid d cs') indent
        child_indent m.
Proof.
  intros Hp Hnd indent child_indent m. rewrite !render_frame_eq.
  cbn [_depth _hatchet_nid children].
  assert (Hs : sorted by_nid
                 (List.map (fun c => (_hatchet_nid c,
                                      render_frame float_repr self df c))
                           cs)
               = sorted by_nid
                   (List.map (fun c => (_hatchet_nid c,
                                        render_frame float_repr self df c))
                             cs')).
  { apply (sorted_key_perm (@fst Z frame)).
    - now apply Permutation_map.
    - rewrite map_map. exact Hnd. }
  now rewrite Hs.
Qed.

Lemma render_roots_pruned self df roots : forall result m,
  Forall (fun n => (depth (kw self) <= _depth n)%Z) roots ->
  render_roots float_repr self df roots result m = Ok (result, m).
Proof.
  induction roots as [| root roots IH]; intros result m Hall; [reflexivity |].
  inversion Hall as [| ? ? Hd Hrest]; subst.
  cbn [render_roots]. rewrite render_frame_eq.
  apply Z.ltb_ge in Hd. rewrite Hd. cbn [bind].
  rewrite app_nil_r. now apply IH.
Qed.

(** X7: roots at or beyond the depth cutoff are pruned without a look at
    their rows or their children: a root set made of such nodes renders
    exactly as the empty root list does, and nothing enters the visited
    list. *)
Theorem pruned_roots_render_as_empty r roots df k :
  Forall (fun n => (depth k <= _depth n)%Z) roots ->
  render version get_colors float_repr r (Some roots) df k
  = render version get_colors float_repr r (Some []) df k.
Proof.
  intros Hall. unfold render.
  destruct (resolve get_colors float_repr r df k) as [self | e] eqn:Hres;
    [| reflexivity].
  cbn [bind]. rewrite render_roots_pruned.
  - reflexivity.
  - apply Forall_sorted. rewrite (resolve_kw get_colors float_repr r df k self Hres). exact Hall.
Qed.

(** X8: [self.temporal_symbols] is assigned while a node is rendered. On
    a renderer's first call with colour on and a temporal-pattern
    annotation column, a root set with every root at or beyond the depth
    cutoff (the empty one included) makes the legend raise
    [AttributeError]. *)
Theorem pattern_legend_needs_a_rendered_node unicode roots df k self ann :
  resolve get_colors float_repr (init unicode true) df k = Ok self ->
  annotation_column k = Some ann ->
  contains (u "_pattern") ann = true ->
  (6 <= List.length (colors.colormap (colors_ self)))%nat ->
  Forall (fun n => (depth k <= _depth n)%Z) roots ->
  render version get_colors float_repr (init unicode true) (Some roots) df k
  = Raise (AttributeError (u "temporal_symbols")).
Proof.
  intros Hres Hann Hpat Hlen Hall. unfold render.
  rewrite Hres. cbn [bind]. rewrite render_roots_pruned.
  2:{ apply Forall_sorted.
      rewrite (resolve_kw get_colors float_repr _ df k self Hres).
      exact Hall. }
  cbn [bind init cr_color].
  unfold render_legend, legend_bands, render_label, getitem.
  destruct (colors.colormap (colors_ self))
    as [| c0 [| c1 [| c2 [| c3 [| c4 [| c5 l]]]]]];
    cbn [List.length] in Hlen; try lia.
  cbn [nth_error bind]. unfold legend_temporal.
  rewrite (resolve_kw get_colors float_repr _ df k self Hres), Hann, Hpat.
  reflexivity.
Qed.

End RootSetProperties.

(* ------------------------------------------------------------------ *)
(** ** Collapsed names and the unknown-procedure marker *)

Section NameProperties.

Lemma is_prefix_app p : forall s,
  is_prefix p s = true -> exists post, s = p ++ post.
Proof.
  induction p as [| a p IH]; intros s H.
  - now exists s.
  - destruct s as [| b s]; [discriminate H |].
    cbn [is_prefix] in H. apply andb_true_iff in H. destruct H as [Hab H].
    apply N.eqb_eq in Hab. subst b.
    destruct (IH s H) as [post ->]. now exists post.
Qed.

Lemma contains_app sub : forall s,
  contains sub s = true -> exists pre post, s = pre ++ sub ++ post.
Proof.
  induction s as [| c s IH]; cbn [contains]; intros H.
  - rewrite orb_false_r in H. apply is_prefix_app in H.
    destruct H as [post H]. now exists [], post.
  - apply orb_true_iff in H. destruct H as [H | H].
    + apply is_prefix_app in H. destruct H as [post H]. now exists [], post.
    + destruct (IH H) as [pre [post ->]]. now exists (c :: pre), post.
Qed.

(** A character of [pre ++ sub ++ post] at a position inside the window
    of [sub] is a character of [sub]. *)
Lemma window_hits (pre sub post : str) i c :
  (List.length pre <= i < List.length pre + List.length sub)%nat ->
  nth_error (pre ++ sub ++ post) i = Some c ->
  In c sub.
Proof.
  intros Hi H.
  rewrite nth_error_app2 in H by lia.
  rewrite nth_error_app1 in H by lia.
  eapply nth_error_In. exact H.
Qed.

(** No window of more than 18 characters without a dot fits in a
    collapsed name. *)
Lemma collapsed_has_no_long_dotless sub (a b : str) :
  List.length a = 18%nat -> List.length b = 18%nat ->
  (18 < List.length sub)%nat ->
  ~ In 46%N sub ->
  contains sub (a ++ u "..." ++ b) = false.
Proof.
  intros Ha Hb Hsub Hdot.
  destruct (contains sub (a ++ u "..." ++ b)) eqn:E; [| reflexivity].
  exfalso. apply contains_app in E. destruct E as [pre [post E]].
  assert (Hlen : (List.length pre + List.length sub + List.length post
                  = 39)%nat).
  { apply (f_equal (@List.length N)) in E.
    rewrite !length_app in E. change (List.length (u "...")) with 3%nat in E.
    lia. }
  assert (H18 : nth_error (a ++ u "..." ++ b) 18 = Some 46%N).
  { rewrite nth_error_app2 by lia. rewrite Ha. reflexivity. }
  assert (H20 : nth_error (a ++ u "..." ++ b) 20 = Some 46%N).
  { rewrite nth_error_app2 by lia. rewrite Ha. reflexivity. }
  rewrite E in H18, H20. apply Hdot.
  destruct (Nat.le_gt_cases (List.length pre) 18) as [Hle | Hgt].
  - apply (window_hits pre sub post 18); [lia | exact H18].
  - apply (window_hits pre sub post 20); [lia | exact H20].
Qed.

(** X9: the unknown-procedure test is applied to the collapsed name. With
    [expand_name] off, a name of more than 39 characters never counts as
    an unknown procedure, whatever it contains: when highlighting is on
    it is highlighted unless the collapsed name contains the unknown-file
    marker. *)
Theorem collapsed_name_is_never_unknown_procedure self name :
  expand_name (kw self) = false ->
  (39 < List.length name)%nat ->
  contains (u "<unknown procedure>") (display_name self name) = false
  /\ (highlight_name (kw self) = true ->
      _ansi_color_for_name self (display_name self name)
      = if contains (u "<unknown file>") (display_name self name)
        then []
        else colors.bg_white_255 (colors_ self)
             ++ colors.dark_gray_255 (colors_ self)).
Proof.
  intros Hexp Hlen.
  assert (Hno : contains (u "<unknown procedure>") (display_name self name)
                = false).
  { unfold display_name. rewrite Hexp. cbn [negb].
    assert (Hif : (39 <? List.length name)%nat = true)
      by now apply Nat.ltb_lt.
    rewrite Hif. unfold slice_to, slice_from.
    apply collapsed_has_no_long_dotless.
    - rewrite length_firstn. lia.
    - rewrite length_skipn. lia.
    - vm_compute. lia.
    - intros H. vm_compute in H.
      repeat (destruct H as [H | H]; [discriminate H |]). exact H. }
  split; [exact Hno |].
  intros Hh. unfold _ansi_color_for_name. rewrite Hh, Hno. reflexivity.
Qed.

End NameProperties.

(* ------------------------------------------------------------------ *)
(** ** A whole call: the visited list, the shape of the result, the
       metric names *)

Section CallProperties.

Import Notions.

Variable version : str.
Variable get_colors : cmap_ann -> bool -> result (list str).
Variable float_repr : float -> str.

(** X10: over a call of [render] that returns, the visited list only
    grows, stays free of duplicates if it was, and at the end holds the id
    of every root within the depth cutoff. *)
Theorem visited_list_over_a_call r roots df k out r' :
  render version get_colors float_repr r (Some roots) df k = Ok (out, r') ->
  (exists added, cr_visited r' = cr_visited r ++ added)
  /\ (NoDup (cr_visited r) -> NoDup (cr_visited r'))
  /\ Forall (fun n => (_depth n < depth k)%Z ->
                      In (_hatchet_nid n) (cr_visited r')) roots.
Proof.
  unfold render. intros H.
  bind_inv H as [self [Hself H]].
  bind_inv H as [[res m] [Hroots H]].
  assert (Hv : cr_visited r' = visited m).
  { bind_inv H as [res' [_ H]]. destruct (cr_unicode r).
    - apply ok_pair_inv in H. destruct H as [_ <-]. reflexivity.
    - bind_inv H as [b [_ H]]. apply ok_pair_inv in H.
      destruct H as [_ <-]. reflexivity. }
  pose proof (render_roots_spec float_repr _ _ _ _ _ _ _ Hroots)
    as [_ [Hgrow Hnd]].
  pose proof (render_roots_marks float_repr _ _ _ _ _ _ _ Hroots) as Hmarks.
  cbn [visited] in Hgrow, Hnd. rewrite Hv.
  split; [exact Hgrow |]. split; [exact Hnd |].
  rewrite (resolve_kw get_colors float_repr r df k self Hself) in Hmarks.
  rewrite Forall_forall in *. intros n Hn. apply Hmarks.
  now apply In_sorted.
Qed.

(** On a root set that is not [None], the text that [render]
    composes starts with the preamble when [render_header] is on; the
    result is that text as a [str] in unicode mode, and its UTF-8
    encoding otherwise. *)
Theorem render_result_shape r roots df k out r' :
  render version get_colors float_repr r (Some roots) df k = Ok (out, r') ->
  exists rest,
    let text :=
      (if render_header k then render_preamble version else []) ++ rest in
    if cr_unicode r then out = Text text
    else exists b, encode_utf8 text = Ok b /\ out = Encoded b.
Proof.
  unfold render. intros H.
  bind_inv H as [self [_ H]].
  bind_inv H as [[res m] [Hroots H]].
  apply render_roots_spec in Hroots. destruct Hroots as [[body ->] _].
  bind_inv H as [text [Htext H]].
  assert (Hshape : exists rest,
             text = (if render_header k then render_preamble version else [])
                    ++ rest).
  { destruct (cr_color r).
    - bind_inv Htext as [legend [_ Htext]]. apply ok_inv in Htext.
      subst text. exists (body ++ legend). now rewrite app_assoc.
    - apply ok_inv in Htext. subst text. now exists body. }
  destruct Hshape as [rest ->]. exists rest. cbv zeta.
  destruct (cr_unicode r).
  - apply ok_pair_inv in H. now destruct H as [<- _].
  - bind_inv H as [b [Hb H]]. apply ok_pair_inv in H.
    destruct H as [<- _]. now exists b.
Qed.

(** The line of a node does not look at [metric_column]. *)
Lemma frame_line_with_kw self k mc df nid indent m :
  kw self = with_metric k mc ->
  frame_line float_repr (with_kw self k) df nid indent m
  = frame_line float_repr self df nid indent m.
Proof.
  intros Hk. destruct self as [un co kws cs ca cm pm sm mx mn].
  cbn [kw] in Hk. subst kws. destruct k. reflexivity.
Qed.

(** Two lists of calls on children that agree call by call. *)
Local Abbreviation same_calls :=
  (Forall2 (fun a b : Z * frame =>
              fst a = fst b
              /\ forall ci cci m, snd a ci cci m = snd b ci cci m)).

Lemma same_calls_insert (a b : Z * frame) l l' :
  fst a = fst b ->
  (forall ci cci m, snd a ci cci m = snd b ci cci m) ->
  same_calls l l' ->
  same_calls (insert by_nid a l) (insert by_nid b l').
Proof.
  intros Hk Hc Hl. induction Hl as [| x y t t' Hxy Ht IH];
    cbn [insert].
  - constructor; [auto | constructor].
  - assert (Hb : by_nid a x = by_nid b y)
      by (unfold by_nid; destruct Hxy as [-> _]; now rewrite Hk).
    rewrite Hb. destruct (by_nid b y).
    + constructor; [auto |]. constructor; [exact Hxy | exact Ht].
    + constructor; [exact Hxy | exact IH].
Qed.

Lemma same_calls_sorted l l' :
  same_calls l l' -> same_calls (sorted by_nid l) (sorted by_nid l').
Proof.
  intros Hl. induction Hl as [| x y t t' [Hxy Hcall] Ht IH].
  - constructor.
  - cbn [sorted fold_right]. now apply same_calls_insert.
Qed.

Lemma same_calls_last l l' :
  same_calls l l' -> last_nid l = last_nid l'.
Proof.
  intros Hl. unfold last_nid.
  assert (Hrev : same_calls (rev l) (rev l')).
  { induction Hl as [| x y t t' Hxy Ht IH]; [constructor |].
    cbn [rev]. apply Forall2_app; [exact IH |].
    constructor; [exact Hxy | constructor]. }
  destruct Hrev as [| x y ? ? [Hxy _] _]; [reflexivity | exact Hxy].
Qed.

Lemma render_children_same self k mc last l l' :
  kw self = with_metric k mc ->
  same_calls l l' ->
  forall child_indent result m,
    render_children (with_kw self k) last l child_indent result m
    = render_children self last l' child_indent result m.
Proof.
  intros Hk Hl. induction Hl as [| x y t t' [Hxy Hcall] Ht IH];
    intros child_indent result m; [reflexivity |].
  destruct x as [cx fx], y as [cy fy]. cbn [fst snd] in Hxy, Hcall.
  subst cy. cbn [render_children].
  assert (Hi : indent_branch (with_kw self k) = indent_branch self
               /\ indent_last (with_kw self k) = indent_last self
               /\ indent_vertical (with_kw self k) = indent_vertical self
               /\ indent_blank (with_kw self k) = indent_blank self)
    by (repeat split).
  destruct Hi as [-> [-> [-> ->]]].
  rewrite Hcall.
  match goal with
  | |- bind ?c _ = _ => destruct c as [[r m1] | e]; [| reflexivity]
  end.
  cbn [bind]. apply IH.
Qed.

Lemma render_frame_with_kw self k mc df node :
  kw self = with_metric k mc ->
  forall indent child_indent m,
    render_frame float_repr (with_kw self k) df node indent child_indent m
    = render_frame float_repr self df node indent child_indent m.
Proof.
  intros Hk.
  induction node as [nid d cs IH] using Node_children_ind.
  intros indent child_indent m. rewrite !render_frame_eq.
  cbn [_depth _hatchet_nid children].
  assert (Hd : depth (kw (with_kw self k)) = depth (kw self))
    by (rewrite Hk; reflexivity).
  rewrite Hd. destruct (d <? depth (kw self))%Z; [| reflexivity].
  rewrite (frame_line_with_kw self k mc df nid indent m Hk).
  destruct (frame_line float_repr self df nid indent m)
    as [[line m1] | e]; [| reflexivity].
  cbn [bind]. destruct (negb (is_visited nid m1)); [| reflexivity].
  cbv zeta.
  assert (Hsame : same_calls
            (sorted by_nid
               (List.map (fun c => (_hatchet_nid c,
                                    render_frame float_repr (with_kw self k)
                                      df c)) cs))
            (sorted by_nid
               (List.map (fun c => (_hatchet_nid c,
                                    render_frame float_repr self df c))
                         cs))).
  { apply same_calls_sorted.
    induction IH as [| c cs Hc Hcs IHcs]; cbn [List.map]; constructor;
      [| exact IHcs].
    cbn [fst snd]. split; [reflexivity | exact Hc]. }
  match goal with
  | |- render_children _ ?l1 _ _ _ _ = render_children _ ?l2 _ _ _ _ =>
      replace l1 with l2 by (symmetry; exact (same_calls_last _ _ Hsame))
  end.
  now apply (render_children_same self k mc).
Qed.

Lemma render_roots_with_kw self k mc df roots :
  kw self = with_metric k mc ->
  forall result m,
    render_roots float_repr (with_kw self k) df roots result m
    = render_roots float_repr self df roots result m.
Proof.
  intros Hk. induction roots as [| root roots IH]; intros result m;
    [reflexivity |].
  cbn [render_roots]. rewrite (render_frame_with_kw self k mc df root Hk).
  destruct (render_frame float_repr self df root [] [] m)
    as [[r m1] | e]; [| reflexivity].
  cbn [bind]. apply IH.
Qed.

Lemma render_legend_with_kw self k mc m :
  kw self = with_metric k mc ->
  render_legend get_colors (with_kw self k) m
  = render_legend get_colors self m.
Proof.
  intros Hk. destruct self as [un co kws cs ca cm pm sm mx mn].
  cbn [kw] in Hk. subst kws. destruct k. reflexivity.
Qed.

(** What [resolve] returns depends on [metric_column] through the two
    resolved names only. *)
Lemma resolve_with_metric r df k mc mc' :
  resolve_metrics mc = resolve_metrics mc' ->
  match resolve get_colors float_repr r df (with_metric k mc),
        resolve get_colors float_repr r df (with_metric k mc') with
  | Ok self, Ok self' =>
      self' = with_kw self (with_metric k mc')
      /\ kw self = with_metric (with_metric k mc') mc
  | Raise e, Raise e' => e = e'
  | _, _ => False
  end.
Proof.
  intros Hm. unfold resolve.
  assert (Hs : setup_colors get_colors float_repr r df (with_metric k mc)
               = setup_colors get_colors float_repr r df (with_metric k mc'))
    by reflexivity.
  rewrite Hs.
  destruct (setup_colors get_colors float_repr r df (with_metric k mc'))
    as [[[c ca] mp] | e]; [| reflexivity].
  cbn [bind]. cbn [metric_column with_metric]. rewrite Hm.
  destruct (resolve_metrics mc') as [[primary second] | e]; [| reflexivity].
  cbn [bind].
  destruct (check_columns df primary second) as [[] | e]; [| reflexivity].
  cbn [bind].
  assert (Hf : filtered_series df (with_metric k mc) primary
               = filtered_series df (with_metric k mc') primary)
    by reflexivity.
  rewrite Hf.
  destruct (filtered_series df (with_metric k mc') primary)
    as [filtered | e]; [| reflexivity].
  cbn [bind]. split; reflexivity.
Qed.

(** X12: of more than two metric names only the first two are used: the
    call gives the result it gives with the first two names alone. *)
Theorem extra_metric_names_are_ignored r roots df k a b rest :
  render version get_colors float_repr r roots df
    (with_metric k (MetricList (a :: b :: rest)))
  = render version get_colors float_repr r roots df
      (with_metric k (MetricList [a; b])).
Proof.
  destruct roots as [roots |]; [| reflexivity].
  unfold render.
  pose proof (resolve_with_metric r df k (MetricList (a :: b :: rest))
                (MetricList [a; b]) eq_refl) as Hres.
  destruct (resolve get_colors float_repr r df
              (with_metric k (MetricList (a :: b :: rest))))
    as [self | e];
    destruct (resolve get_colors float_repr r df
                (with_metric k (MetricList [a; b]))) as [self' | e'];
    try contradiction; [| now subst].
  destruct Hres as [-> Hk]. cbn [bind].
  cbn [render_header with_metric].
  rewrite (render_roots_with_kw self _ _ df _ Hk).
  destruct (render_roots float_repr self df (sorted node_leb roots)
              (if render_header k then render_preamble version else [])
              {| visited := cr_visited r; temporal_symbols_set := false |})
    as [[res m] | e]; [| reflexivity].
  cbn [bind]. rewrite (render_legend_with_kw self _ _ m Hk). reflexivity.
Qed.

End CallProperties.

(* ------------------------------------------------------------------ *)
(** ** Colour off: no escape characters *)

Section PlainProperties.

Import Notions.

Variable version : str.
Variable get_colors : cmap_ann -> bool -> result (list str).
Variable float_repr : float -> str.

Lemma plain_app a b : plain a -> plain b -> plain (a ++ b).
Proof. unfold plain. rewrite in_app_iff. tauto. Qed.

Lemma plain_nil : plain [].
Proof. intros []. Qed.

(** A literal is checked by computation. *)
Lemma plain_check s :
  forallb (fun c => negb (c =? 27)%N) s = true -> plain s.
Proof.
  intros H Hin. rewrite forallb_forall in H. specialize (H _ Hin).
  discriminate H.
Qed.

Ltac plain_literal := apply plain_check; reflexivity.

Lemma plain_firstn n s : plain s -> plain (firstn n s).
Proof.
  intros H Hin. apply H. rewrite <- (firstn_skipn n s).
  apply in_or_app. now left.
Qed.

Lemma plain_skipn n s : plain s -> plain (skipn n s).
Proof.
  intros H Hin. apply H. rewrite <- (firstn_skipn n s).
  apply in_or_app. now right.
Qed.

Lemma digits_are_digits d c :
  In c (digits_of_uint d) -> (48 <= c <= 57)%N.
Proof.
  induction d; cbn [digits_of_uint In]; intros H;
    try contradiction; destruct H as [<- | H]; try lia; auto.
Qed.

Lemma plain_decimal n : plain (decimal n).
Proof.
  intros H. apply digits_are_digits in H. lia.
Qed.

Lemma plain_point p z : plain (point p z).
Proof.
  unfold point.
  assert (Hds : plain (rjust (S p) 48 (decimal (Z.to_N z)))).
  { unfold rjust. apply plain_app; [| apply plain_decimal].
    intros H. apply repeat_spec in H. discriminate H. }
  destruct p; [exact Hds |].
  apply plain_app; [now apply plain_firstn |].
  apply plain_app; [plain_literal | now apply plain_skipn].
Qed.

Lemma plain_fixed p x : plain (fixed p x).
Proof.
  unfold fixed. destruct (Prim2SF x) as [s | s | | s m e].
  - apply plain_app; [destruct s; [plain_literal | apply plain_nil] |].
    apply plain_point.
  - destruct s; plain_literal.
  - plain_literal.
  - apply plain_app; [destruct s; [plain_literal | apply plain_nil] |].
    apply plain_point.
Qed.

Variable df : DataFrame.
Hypothesis version_plain : plain version.
Hypothesis repr_plain : forall x, plain (float_repr x).
Hypothesis cells_plain :
  forall key col s, cells df key col = CStr s -> plain s.

Lemma loc_cell key col c : loc df key col = Ok c -> c = cells df key col.
Proof.
  unfold loc.
  destruct (negb (existsb (key_eqb key) (index df))); [discriminate |].
  destruct (negb (str_in col (columns df))); [discriminate |].
  intros H. apply ok_inv in H. now subst.
Qed.

Lemma plain_py_str key col c :
  loc df key col = Ok c -> plain (py_str float_repr c).
Proof.
  intros H. apply loc_cell in H. destruct c as [s | x |]; cbn [py_str].
  - now apply (cells_plain key col).
  - destruct (Prim2SF x) as [sg | sg | | sg m e];
      try apply repr_plain; [destruct sg |]; plain_literal.
  - plain_literal.
Qed.

Variable self : Self.
Hypothesis colors_off : colors_ self = colors_disabled.
Hypothesis no_annotation_colors : colors_annotations self = None.

Lemma plain_metric_color x c :
  _ansi_color_for_metric self x = Ok c -> c = [].
Proof.
  rewrite ansi_color_select, colors_off.
  destruct (Spec.select (proportion_of_total self x)) as [i |] eqn:Hb.
  - unfold Spec.select in Hb.
    repeat match type of Hb with
           | (if ?b then _ else _) = _ => destruct b
           end;
      inversion Hb; subst; cbn; intros H; apply ok_inv in H; now subst.
  - cbn. intros H. apply ok_inv in H. now subst.
Qed.

Lemma plain_metric_text key ms :
  metric_text self df key = Ok ms -> plain ms.
Proof.
  unfold metric_text. intros H. rewrite colors_off in H.
  bind_inv H as [c [_ H]]. bind_inv H as [x [_ H]].
  bind_inv H as [col [Hcol H]]. apply plain_metric_color in Hcol. subst col.
  bind_inv H as [txt [Htxt H]].
  assert (Hp : plain txt).
  { unfold format_f in Htxt.
    destruct (precision (kw self) <? 0)%Z; [discriminate Htxt |].
    apply ok_inv in Htxt. subst txt. apply plain_fixed. }
  cbn [colors.end_ colors.faint colors_disabled] in H.
  destruct (second_metric self) as [second |].
  - bind_inv H as [c2 [_ H]]. bind_inv H as [txt2 [Htxt2 H]].
    apply ok_inv in H. subst ms.
    assert (Hp2 : plain txt2).
    { destruct c2 as [s | y |]; cbn [format_cell_f] in Htxt2;
        try discriminate Htxt2.
      unfold format_f in Htxt2.
      destruct (precision (kw self) <? 0)%Z; [discriminate Htxt2 |].
      apply ok_inv in Htxt2. subst txt2. apply plain_fixed. }
    repeat apply plain_app; try assumption; try apply plain_nil;
      plain_literal.
  - apply ok_inv in H. subst ms.
    repeat apply plain_app; try assumption; apply plain_nil.
Qed.

Lemma plain_temporal_symbol c sym :
  temporal_symbol c = Ok sym -> plain sym.
Proof.
  destruct c as [s | x |]; cbn [temporal_symbol]; try discriminate.
  unfold temporal_symbols, dict_get.
  repeat match goal with
         | |- context [str_eqb ?k s] => destruct (str_eqb k s)
         end;
    intros H; try discriminate H; apply ok_inv in H; subst sym;
    plain_literal.
Qed.

Lemma plain_annotation_text key ann a set :
  annotation_text float_repr self df key ann = Ok (a, set) -> plain a.
Proof.
  unfold annotation_text. intros H.
  bind_inv H as [c [Hc H]].
  pose proof (plain_py_str key ann c Hc) as Hstr.
  destruct (contains (u "_pattern") ann).
  - bind_inv H as [pm [_ H]]. bind_inv H as [sym [Hsym H]].
    apply plain_temporal_symbol in Hsym.
    destruct (truthy_cmap (colormap_annotations (kw self))).
    + bind_inv H as [col [_ H]]. bind_inv H as [cc [_ H]].
      destruct (negb (str_eqb cc (u "none"))).
      * rewrite no_annotation_colors in H. discriminate H.
      * apply ok_pair_inv in H. destruct H as [<- _]. exact Hsym.
    + apply ok_pair_inv in H. destruct H as [<- _].
      apply plain_app; [plain_literal | exact Hsym].
  - destruct (truthy_cmap (colormap_annotations (kw self))).
    + bind_inv H as [color [_ H]].
      rewrite no_annotation_colors in H. discriminate H.
    + apply ok_pair_inv in H. destruct H as [<- _].
      repeat apply plain_app; try assumption; plain_literal.
Qed.

Lemma plain_display_name name : plain name -> plain (display_name self name).
Proof.
  intros H. unfold display_name, slice_to, slice_from.
  destruct (negb (expand_name (kw self))); [| exact H].
  destruct (39 <? List.length name)%nat; [| exact H].
  apply plain_app; [now apply plain_firstn |].
  apply plain_app; [plain_literal | now apply plain_skipn].
Qed.

Lemma plain_name_text key ns :
  name_text self df key = Ok ns -> plain ns.
Proof.
  unfold name_text. intros H. bind_inv H as [cn [Hcn H]].
  bind_inv H as [name [Hname H]]. apply ok_inv in H. subst ns.
  destruct cn as [s | x |]; try discriminate Hname.
  cbn in Hname. apply ok_inv in Hname. subst s.
  apply loc_cell in Hcn. symmetry in Hcn. apply cells_plain in Hcn.
  unfold _ansi_color_for_name. rewrite colors_off.
  cbn [colors.bg_white_255 colors.dark_gray_255 colors.end_ colors_disabled].
  apply plain_app.
  - destruct (negb (highlight_name (kw self))); [apply plain_nil |].
    destruct (_ || _); apply plain_nil.
  - apply plain_app; [now apply plain_display_name | apply plain_nil].
Qed.

Lemma plain_lr_decorator c d : lr_decorator self c = Some d -> plain d.
Proof.
  unfold lr_decorator, arrow_left, arrow_right. rewrite colors_off.
  cbn [colors.left colors.right colors.end_ colors_disabled].
  destruct c as [s | x |]; try discriminate.
  destruct (x =? 0)%float; [intros H; inversion H; apply plain_nil |].
  destruct (x =? 1)%float;
    [intros H; inversion H; destruct (unicode self); plain_literal |].
  destruct (x =? 2)%float;
    [intros H; inversion H; destruct (unicode self); plain_literal |].
  discriminate.
Qed.

Lemma plain_frame_line nid indent m line m' :
  plain indent ->
  frame_line float_repr self df nid indent m = Ok (line, m') ->
  plain line.
Proof.
  intros Hi H. unfold frame_line in H.
  bind_inv H as [ms [Hms H]]. apply plain_metric_text in Hms.
  bind_inv H as [[ms' m1] [Hann H]].
  assert (Hms' : plain ms').
  { unfold annotate in Hann.
    destruct (annotation_column (kw self)) as [ann |].
    - bind_inv Hann as [[a set] [Ha Hann]].
      apply plain_annotation_text in Ha.
      apply ok_pair_inv in Hann. destruct Hann as [<- _].
      now apply plain_app.
    - apply ok_pair_inv in Hann. now destruct Hann as [<- _]. }
  bind_inv H as [ns [Hns H]]. apply plain_name_text in Hns.
  bind_inv H as [deco [Hdeco H]].
  bind_inv H as [res [Hres H]].
  assert (Hbase : plain (indent ++ ms' ++ u " " ++ ns)).
  { repeat apply plain_app; try assumption; plain_literal. }
  assert (Hr : plain res).
  { destruct (str_in (u "_missing_node") (columns df)).
    - bind_inv Hdeco as [lr [_ Hdeco]]. apply ok_inv in Hdeco. subst deco.
      destruct (lr_decorator self lr) as [d |] eqn:Hd; [| discriminate Hres].
      apply ok_inv in Hres. subst res.
      apply plain_app; [exact Hbase | now apply (plain_lr_decorator lr)].
    - apply ok_inv in Hres. now subst res. }
  rewrite colors_off in H.
  cbn [colors.faint colors.end_ colors_disabled] in H.
  assert (HNL : plain NL) by plain_literal.
  destruct (context_column (kw self)) as [context |].
  - destruct (str_in context (columns df)).
    + bind_inv H as [c [Hc H]]. apply plain_py_str in Hc.
      apply ok_pair_inv in H. destruct H as [<- _].
      repeat apply plain_app; try assumption; try apply plain_nil;
        plain_literal.
    + apply ok_pair_inv in H. destruct H as [<- _]. now apply plain_app.
  - apply ok_pair_inv in H. destruct H as [<- _]. now apply plain_app.
Qed.

(** A call on a child that keeps the text plain. *)
Local Abbreviation plain_call :=
  (fun c : Z * frame =>
     forall ci cci m out m',
       plain ci -> plain cci -> snd c ci cci m = Ok (out, m') -> plain out).

Lemma plain_render_children last cs :
  Forall plain_call cs ->
  forall child_indent result m out m',
    plain child_indent -> plain result ->
    render_children self last cs child_indent result m = Ok (out, m') ->
    plain out.
Proof.
  intros Hcs. induction Hcs as [| [child call] cs Hc Hcs IH];
    intros child_indent result m out m' Hci Hr H.
  - apply ok_pair_inv in H. now destruct H as [<- _].
  - cbn [render_children] in H. bind_inv H as [[r m1] [Hcall H]].
    cbn [snd] in Hc. apply Hc in Hcall.
    + apply (IH child_indent (result ++ r) m1 out m' Hci); [| exact H].
      now apply plain_app.
    + destruct (negb (child =? last)%Z); apply plain_app; try assumption;
        unfold indent_branch, indent_last; destruct (unicode self);
        plain_literal.
    + destruct (negb (child =? last)%Z); apply plain_app; try assumption;
        unfold indent_vertical, indent_blank; try destruct (unicode self);
        plain_literal.
Qed.

Lemma plain_render_frame node :
  forall indent child_indent m out m',
    plain indent -> plain child_indent ->
    render_frame float_repr self df node indent child_indent m
    = Ok (out, m') ->
    plain out.
Proof.
  induction node as [nid d cs IH] using Node_children_ind.
  intros indent child_indent m out m' Hi Hci H.
  rewrite render_frame_eq in H. cbn [_depth _hatchet_nid children] in H.
  destruct (d <? depth (kw self))%Z.
  2:{ apply ok_pair_inv in H. destruct H as [<- _]. apply plain_nil. }
  bind_inv H as [[line m1] [Hline H]].
  apply (plain_frame_line _ _ _ _ _ Hi) in Hline.
  destruct (negb (is_visited nid m1)).
  - cbv zeta in H. eapply plain_render_children; [| exact Hci | exact Hline
                                                    | exact H].
    apply Forall_sorted. rewrite Forall_map.
    eapply Forall_impl; [| exact IH].
    intros c Hc. cbn [snd]. intros ci cci m0 out0 m0' H1 H2 H3.
    exact (Hc ci cci m0 out0 m0' H1 H2 H3).
  - apply ok_pair_inv in H. now destruct H as [<- _].
Qed.

Lemma plain_render_roots roots : forall result m out m',
  plain result ->
  render_roots float_repr self df roots result m = Ok (out, m') ->
  plain out.
Proof.
  induction roots as [| root roots IH]; intros result m out m' Hr H.
  - apply ok_pair_inv in H. now destruct H as [<- _].
  - cbn [render_roots] in H. bind_inv H as [[r m1] [Hroot H]].
    apply plain_render_frame in Hroot; try apply plain_nil.
    apply (IH (result ++ r) m1 out m'); [now apply plain_app | exact H].
Qed.

Lemma plain_join sep lines :
  plain sep -> Forall plain lines -> plain (join sep lines).
Proof.
  intros Hs Hl. induction Hl as [| l ls Hl Hls IH]; [apply plain_nil |].
  cbn [join]. destruct ls as [| l2 ls]; [exact Hl |].
  apply plain_app; [exact Hl |]. apply plain_app; [exact Hs | exact IH].
Qed.

Lemma plain_preamble : plain (render_preamble version).
Proof.
  unfold render_preamble. apply plain_join; [plain_literal |].
  repeat (apply Forall_cons; [try plain_literal |]); try apply Forall_nil.
  apply plain_app; [plain_literal |].
  unfold rjust. apply plain_app.
  - intros H. apply repeat_spec in H. discriminate H.
  - apply plain_app; [plain_literal | exact version_plain].
Qed.

End PlainProperties.



Section PlainResult.

Import Notions.

Variable version : str.
Variable get_colors : cmap_ann -> bool -> result (list str).
Variable float_repr : float -> str.

Lemma b8_escape n : b8 n = Byte.x1b -> n = 27%N.
Proof.
  unfold b8. destruct (Byte.of_N n) as [b |] eqn:E; [| discriminate].
  intros ->. apply Byte.to_of_N in E. now rewrite <- E.
Qed.

Lemma lor_high_bit a x : N.testbit a 7 = true -> N.lor a x <> 27%N.
Proof.
  intros Ha H. apply (f_equal (fun n => N.testbit n 7)) in H.
  rewrite N.lor_spec, Ha in H. discriminate H.
Qed.

(** The encoding of a character other than the escape character has no
    escape byte. *)
Lemma utf8_char_escape c bs :
  utf8_char c = Ok bs -> In Byte.x1b bs -> c = 27%N.
Proof.
  unfold utf8_char.
  repeat match goal with
         | |- context [if ?b then _ else _] => destruct b
         end;
    intros H Hin; try discriminate H; apply ok_inv in H; subst bs;
    cbn [In] in Hin;
    repeat match goal with
           | H : _ \/ _ |- _ => destruct H as [H | H]
           | H : False |- _ => contradiction
           | H : b8 _ = Byte.x1b |- _ => apply b8_escape in H
           end;
    try assumption;
    exfalso; (eapply lor_high_bit; [| eassumption]); reflexivity.
Qed.

Lemma encode_utf8_escape s : forall b,
  encode_utf8 s = Ok b -> plain s -> ~ In Byte.x1b b.
Proof.
  induction s as [| c s IH]; intros b H Hp Hin.
  - apply ok_inv in H. subst b. contradiction.
  - cbn [encode_utf8] in H. bind_inv H as [bc [Hc H]].
    bind_inv H as [bs [Hs H]]. apply ok_inv in H. subst b.
    apply in_app_iff in Hin. destruct Hin as [Hin | Hin].
    + apply (utf8_char_escape c bc Hc) in Hin. apply Hp. now left.
    + apply (IH bs Hs); [| exact Hin]. intros H27. apply Hp. now right.
Qed.

(** X13: with colour off, [render] puts no escape character into its
    result, [str] or [bytes], beyond those that the table's own strings,
    the version string or the printing of a float would bring. *)
Theorem no_escape_without_color r roots df k out r' :
  cr_color r = false ->
  plain version ->
  (forall x, plain (float_repr x)) ->
  (forall key col s, cells df key col = CStr s -> plain s) ->
  render version get_colors float_repr r roots df k = Ok (out, r') ->
  plain_result out.
Proof.
  intros Hcol Hv Hrepr Hcells H. unfold render in H.
  assert (Hheader : plain (if render_header k then render_preamble version
                           else [])).
  { destruct (render_header k); [now apply plain_preamble | intros []]. }
  destruct roots as [roots |].
  2:{ apply ok_pair_inv in H. destruct H as [<- _]. cbn [plain_result].
      apply plain_app; [exact Hheader |]. apply plain_check. reflexivity. }
  bind_inv H as [self [Hself H]].
  assert (Hoff : colors_ self = colors_disabled
                 /\ colors_annotations self = None).
  { destruct (resolve_colors get_colors float_repr r df k self Hself)
      as [Hsetup _].
    unfold setup_colors in Hsetup. rewrite Hcol in Hsetup.
    apply ok_inv in Hsetup. inversion Hsetup. auto. }
  destruct Hoff as [Hc Hca].
  bind_inv H as [[res m] [Hroots H]].
  apply (plain_render_roots float_repr df Hrepr Hcells self Hc Hca) in Hroots;
    [| exact Hheader].
  rewrite Hcol in H. cbn [bind] in H.
  destruct (cr_unicode r).
  - apply ok_pair_inv in H. destruct H as [<- _]. exact Hroots.
  - bind_inv H as [b [Hb H]]. apply ok_pair_inv in H. destruct H as [<- _].
    cbn [plain_result]. now apply (encode_utf8_escape res).
Qed.

End PlainResult.

(* ------------------------------------------------------------------ *)
(** ** The depth cutoff below the roots *)

Section CutoffProperties.

Import Notions.

Variable version : str.
Variable get_colors : cmap_ann -> bool -> result (list str).
Variable float_repr : float -> str.

Lemma nodes_of_self n : In n (nodes_of n).
Proof. destruct n. now left. Qed.

Lemma nodes_of_child nid d cs c n :
  In c cs -> In n (nodes_of c) -> In n (nodes_of (mkNode nid d cs)).
Proof.
  intros Hc Hn. cbn [nodes_of]. right. apply in_flat_map. now exists c.
Qed.

Lemma render_children_appends self Q last cs child_indent :
  Forall (fun c => appends_only Q (snd c)) cs ->
  forall result m out m',
    render_children self last cs child_indent result m = Ok (out, m') ->
    exists added, visited m' = visited m ++ added /\ Forall Q added.
Proof.
  intros Hcs.
  induction Hcs as [| [child call] cs Hc Hcs IH]; intros result m out m' H.
  - cbn [render_children] in H. apply ok_pair_inv in H.
    destruct H as [_ <-]. exists []. now rewrite app_nil_r.
  - cbn [render_children] in H.
    bind_inv H as [[r m1] [Hcall H]].
    apply Hc in Hcall. destruct Hcall as [a1 [Ha1 HQ1]].
    apply IH in H. destruct H as [a2 [Ha2 HQ2]].
    exists (a1 ++ a2). split; [now rewrite Ha2, Ha1, app_assoc |].
    apply Forall_app. now split.
Qed.

(** What a call of [render_frame] appends to the visited list are ids of
    the node or of nodes below it, each with a depth below the cutoff. *)
Lemma render_frame_appends self df node :
  appends_only (within_cutoff (depth (kw self)) (nodes_of node))
    (render_frame float_repr self df node).
Proof.
  induction node as [nid d cs IH] using Node_children_ind.
  intros indent child_indent m out m2 H.
  rewrite render_frame_eq in H. cbn [_depth _hatchet_nid children] in H.
  destruct (d <? depth (kw self))%Z eqn:Hd.
  2:{ apply ok_pair_inv in H. destruct H as [_ <-].
      exists []. now rewrite app_nil_r. }
  apply Z.ltb_lt in Hd.
  bind_inv H as [[line m1] [Hline H]].
  pose proof (frame_line_visited float_repr _ _ _ _ _ _ _ Hline) as Hv1.
  destruct (is_visited nid m1); cbn [negb] in H.
  - apply ok_pair_inv in H. destruct H as [_ <-].
    exists []. now rewrite app_nil_r.
  - apply (render_children_appends self
             (within_cutoff (depth (kw self)) (nodes_of (mkNode nid d cs))))
      in H.
    + destruct H as [added [Hadd HQ]].
      cbn [mark_visited visited] in Hadd. rewrite Hv1 in Hadd.
      exists (nid :: added).
      split; [rewrite Hadd, <- app_assoc; reflexivity |].
      constructor; [| exact HQ].
      exists (mkNode nid d cs).
      split; [apply nodes_of_self |]. now split.
    + apply Forall_forall. intros [child call] Hin.
      apply In_sorted in Hin. apply in_map_iff in Hin.
      destruct Hin as [c [Hc Hin]]. inversion Hc; subst child call.
      cbn [snd]. rewrite Forall_forall in IH.
      intros ci cci m' out' m'' Hcall.
      destruct (IH c Hin ci cci m' out' m'' Hcall) as [added [Hadd HQ]].
      exists added. split; [exact Hadd |].
      eapply Forall_impl; [| exact HQ].
      intros x [n [Hn Hrest]]. exists n.
      split; [| exact Hrest]. eapply nodes_of_child; eassumption.
Qed.

Lemma nodes_of_sorted l n :
  In n (flat_map nodes_of (sorted node_leb l)) ->
  In n (flat_map nodes_of l).
Proof.
  intros Hn. apply in_flat_map in Hn. destruct Hn as [c [Hc Hn]].
  apply In_sorted in Hc. apply in_flat_map. now exists c.
Qed.

Lemma render_roots_appends self df roots : forall result m out m',
  render_roots float_repr self df roots result m = Ok (out, m') ->
  exists added,
    visited m' = visited m ++ added
    /\ Forall (within_cutoff (depth (kw self)) (flat_map nodes_of roots))
         added.
Proof.
  induction roots as [| root roots IH]; intros result m out m' H.
  - cbn [render_roots] in H. apply ok_pair_inv in H. destruct H as [_ <-].
    exists []. now rewrite app_nil_r.
  - cbn [render_roots] in H.
    bind_inv H as [[r m1] [Hroot H]].
    apply render_frame_appends in Hroot. destruct Hroot as [a1 [Ha1 HQ1]].
    apply IH in H. destruct H as [a2 [Ha2 HQ2]].
    exists (a1 ++ a2). split; [now rewrite Ha2, Ha1, app_assoc |].
    apply Forall_app. split.
    + eapply Forall_impl; [| exact HQ1].
      intros x [n [Hn Hrest]]. exists n. split; [| exact Hrest].
      cbn [flat_map]. apply in_or_app. now left.
    + eapply Forall_impl; [| exact HQ2].
      intros x [n [Hn Hrest]]. exists n. split; [| exact Hrest].
      cbn [flat_map]. apply in_or_app. now right.
Qed.

(** X14: the depth cutoff holds below the roots as well. Over a call of
    [render] that returns, every id appended to the visited list is the
    id of a root or of a node below a root, and of one whose depth is
    below the cutoff: no node at or beyond the cutoff is ever visited. *)
Theorem visited_stays_within_cutoff r roots df k out r' :
  render version get_colors float_repr r (Some roots) df k = Ok (out, r') ->
  exists added,
    cr_visited r' = cr_visited r ++ added
    /\ Forall (within_cutoff (depth k) (flat_map nodes_of roots)) added.
Proof.
  unfold render. intros H.
  bind_inv H as [self [Hself H]].
  bind_inv H as [[res m] [Hroots H]].
  apply render_roots_appends in Hroots. cbn [visited] in Hroots.
  rewrite (resolve_kw get_colors float_repr r df k self Hself) in Hroots.
  destruct Hroots as [added [Hadd HQ]].
  exists added. split.
  - bind_inv H as [res' [_ H]].
    destruct (cr_unicode r).
    + apply ok_pair_inv in H. destruct H as [_ <-]. exact Hadd.
    + bind_inv H as [b [_ H]].
      apply ok_pair_inv in H. destruct H as [_ <-]. exact Hadd.
  - eapply Forall_impl; [| exact HQ].
    intros x [n [Hn Hrest]]. exists n. split; [| exact Hrest].
    now apply nodes_of_sorted.
Qed.

End CutoffProperties.

(* ------------------------------------------------------------------ *)
(** ** Shared nodes: what is rendered under each parent *)

Section DagProperties.

Import Notions.

Variable float_repr : float -> str.
















End DagProperties.

(* ------------------------------------------------------------------ *)
(** ** Further properties on the example inputs *)

Module MoreExamples.

Import Fixtures Notions.

Lemma bounds_bracket_finite_data_witness :
  exists self,
    resolve Fixtures.get_colors Fixtures.float_repr (init false false)
      three_rows options = Ok self
    /\ In (Key 1 None None) (index three_rows)
    /\ cells three_rows (Key 1 None None) (primary_metric self) = CNum 2
    /\ (min_metric self <=? 2)%float = true
    /\ (2 <=? max_metric self)%float = true.
Proof.
  destruct (resolve Fixtures.get_colors Fixtures.float_repr (init false false)
              three_rows options) as [self |] eqn:Hres;
    [| vm_compute in Hres; discriminate Hres].
  exists self.
  assert (Hp : primary_metric self = u "time").
  { vm_compute in Hres. apply ok_inv in Hres. now subst self. }
  assert (Hk : In (Key 1 None None) (index three_rows))
    by (vm_compute; tauto).
  assert (Hc : cells three_rows (Key 1 None None) (primary_metric self)
               = CNum 2) by (rewrite Hp; vm_compute; reflexivity).
  destruct (bounds_bracket_finite_data Fixtures.get_colors
              Fixtures.float_repr (init false false) three_rows options
              self (Key 1 None None) 2%float Hres Hk) as [Hlo Hhi];
    [intros H; vm_compute in H; discriminate H | exact Hc
     | vm_compute; reflexivity |].
  split; [reflexivity |]. split; [exact Hk |]. split; [exact Hc |].
  split; [apply Hlo | apply Hhi]; reflexivity.
Defined.

Lemma second_render_prints_roots_only_witness :
  exists out r' out',
    run (init true false) (Some [R]) diamond options = Ok (Text out, r')
    /\ Forall (fun n => (_depth n < depth options)%Z) [R]
    /\ In (_hatchet_nid R) (cr_visited r')
    /\ run r' (Some [R]) diamond options = Ok (Text out', r')
    /\ out' = u "4.00 R" ++ [10%N].
Proof.
  destruct (run (init true false) (Some [R]) diamond options)
    as [[out r'] |] eqn:H; [| vm_compute in H; discriminate H].
  assert (Hd : Forall (fun n => (_depth n < depth options)%Z) [R])
    by (constructor; [vm_compute; reflexivity | constructor]).
  destruct (second_render_prints_roots_only Fixtures.version
              Fixtures.get_colors Fixtures.float_repr _ _ _ _ _ _ H Hd)
    as [self [_ [_ [Hin _]]]].
  inversion Hin as [| ? ? HR _]; subst.
  vm_compute in H. apply ok_pair_inv in H. destruct H as [<- <-].
  eexists. eexists. eexists.
  split; [reflexivity |]. split; [exact Hd |]. split; [exact HR |].
  split; vm_compute; reflexivity.
Defined.

Lemma palette_color_spec_witness :
  two_colors <> []
  /\ In (u "mpi") [u "cpu"; u "io"; u "mpi"]
  /\ palette_color two_colors [u "cpu"; u "io"; u "mpi"] (u "mpi")
     = Ok (ESC ++ u "[31m")
  /\ palette_color two_colors [u "cpu"; u "io"; u "mpi"] (u "gpu")
     = Raise ValueError.
Proof.
  assert (Hp : two_colors <> []) by discriminate.
  assert (Hin : In (u "mpi") [u "cpu"; u "io"; u "mpi"])
    by (cbn; tauto).
  destruct (palette_color_spec two_colors [u "cpu"; u "io"; u "mpi"]
              (u "mpi")) as [Hok _].
  destruct (palette_color_spec two_colors [u "cpu"; u "io"; u "mpi"]
              (u "gpu")) as [_ [Hmiss _]].
  split; [exact Hp |]. split; [exact Hin |]. split.
  - destruct (Hok Hp Hin) as [c [Hc _]]. rewrite Hc.
    vm_compute in Hc. apply ok_inv in Hc. now subst c.
  - apply Hmiss. intros H. cbn in H.
    repeat (destruct H as [H | H]; [vm_compute in H; discriminate H |]).
    exact H.
Defined.


Lemma annotation_colormap_without_color_witness :
  exists self,
    resolve Fixtures.get_colors Fixtures.float_repr (init false false)
      annotated annotating = Ok self
    /\ annotation_text Fixtures.float_repr self annotated
         (Key 1 None None) (u "kind")
       = Raise (AttributeError (u "colors_annotations"))
    /\ raises (render_frame Fixtures.float_repr self annotated leaf [] []
                 start).
Proof.
  destruct (resolve Fixtures.get_colors Fixtures.float_repr
              (init false false) annotated annotating)
    as [self |] eqn:Hres; [| vm_compute in Hres; discriminate Hres].
  destruct (annotation_colormap_without_color Fixtures.get_colors
              Fixtures.float_repr false annotated annotating
              self (u "kind") Hres) as [Htext Hframe];
    try reflexivity.
  exists self. split; [reflexivity |]. split.
  - apply (Htext (Key 1 None None) (CStr (u "mpi"))).
    vm_compute. reflexivity.
  - apply Hframe. vm_compute. reflexivity.
Defined.

Lemma render_ignores_root_order_witness :
  Permutation [B; A] [A; B]
  /\ NoDup (List.map _hatchet_nid [B; A])
  /\ run (init true false) (Some [B; A]) diamond options
     = run (init true false) (Some [A; B]) diamond options.
Proof.
  assert (Hp : Permutation [B; A] [A; B]) by apply perm_swap.
  assert (Hn : NoDup (List.map _hatchet_nid [B; A])).
  { cbn. repeat constructor; cbn; intuition discriminate. }
  split; [exact Hp |]. split; [exact Hn |].
  exact (render_ignores_root_order Fixtures.version Fixtures.get_colors
           Fixtures.float_repr (init true false) [B; A] [A; B] diamond
           options Hp Hn).
Defined.

Lemma render_ignores_child_order_witness :
  Permutation [B; A] [A; B]
  /\ NoDup (List.map _hatchet_nid [B; A])
  /\ render_frame Fixtures.float_repr Fixtures.plain diamond R [] [] start
     = render_frame Fixtures.float_repr Fixtures.plain diamond
         (mkNode 0 0 [A; B]) [] [] start.
Proof.
  assert (Hp : Permutation [B; A] [A; B]) by apply perm_swap.
  assert (Hn : NoDup (List.map _hatchet_nid [B; A])).
  { cbn. repeat constructor; cbn; intuition discriminate. }
  split; [exact Hp |]. split; [exact Hn |].
  exact (render_ignores_child_order Fixtures.float_repr Fixtures.plain diamond 0 0
           [B; A] [A; B] Hp Hn [] [] start).
Defined.

Lemma pruned_roots_render_as_empty_witness :
  Forall (fun n => (depth options <= _depth n)%Z) [far]
  /\ run (init true false) (Some [far]) diamond options
     = Ok (Text [], init true false).
Proof.
  assert (Hf : Forall (fun n => (depth options <= _depth n)%Z) [far]).
  { constructor; [| constructor]. vm_compute. discriminate. }
  split; [exact Hf |].
  unfold run.
  rewrite (pruned_roots_render_as_empty Fixtures.version Fixtures.get_colors
             Fixtures.float_repr (init true false) [far] diamond options Hf).
  vm_compute. reflexivity.
Defined.

Lemma pattern_legend_needs_a_rendered_node_witness :
  exists self,
    resolve Fixtures.get_colors Fixtures.float_repr (init false true)
      patterned (with_annotation options (Some (u "time_pattern")) CA_None)
    = Ok self
    /\ Forall (fun n => (depth options <= _depth n)%Z) [far]
    /\ run (init false true) (Some [far]) patterned
         (with_annotation options (Some (u "time_pattern")) CA_None)
       = Raise (AttributeError (u "temporal_symbols")).
Proof.
  destruct (resolve Fixtures.get_colors Fixtures.float_repr
              (init false true) patterned
              (with_annotation options (Some (u "time_pattern")) CA_None))
    as [self |] eqn:Hres; [| vm_compute in Hres; discriminate Hres].
  assert (Hf : Forall (fun n => (depth options <= _depth n)%Z) [far]).
  { constructor; [| constructor]. vm_compute. discriminate. }
  exists self. split; [reflexivity |]. split; [exact Hf |].
  apply (pattern_legend_needs_a_rendered_node Fixtures.version
           Fixtures.get_colors Fixtures.float_repr false [far]
           patterned _ self (u "time_pattern") Hres);
    try reflexivity; try exact Hf.
  vm_compute in Hres. apply ok_inv in Hres. subst self. vm_compute. lia.
Defined.

Lemma collapsed_name_is_never_unknown_procedure_witness :
  expand_name (kw highlighting) = false
  /\ (39 < List.length unknown_name)%nat
  /\ contains (u "<unknown procedure>") unknown_name = true
  /\ display_name highlighting unknown_name
     = u "<unknown procedure...ibpthread-2.17.so]"
  /\ _ansi_color_for_name highlighting (display_name highlighting unknown_name)
     = ESC ++ u "[48;5;246m" ++ ESC ++ u "[38;5;232m".
Proof.
  assert (He : expand_name (kw highlighting) = false) by reflexivity.
  assert (Hl : (39 < List.length unknown_name)%nat) by (vm_compute; lia).
  destruct (collapsed_name_is_never_unknown_procedure highlighting
              unknown_name He Hl) as [_ Hcolor].
  split; [exact He |]. split; [exact Hl |].
  split; [vm_compute; reflexivity |]. split; [vm_compute; reflexivity |].
  rewrite (Hcolor eq_refl). vm_compute. reflexivity.
Defined.

Lemma visited_list_over_a_call_witness :
  exists out r',
    run (init true false) (Some [R]) diamond options = Ok (out, r')
    /\ NoDup (cr_visited (init true false))
    /\ NoDup (cr_visited r')
    /\ In (_hatchet_nid R) (cr_visited r').
Proof.
  destruct (run (init true false) (Some [R]) diamond options)
    as [[out r'] |] eqn:H; [| vm_compute in H; discriminate H].
  destruct (visited_list_over_a_call Fixtures.version Fixtures.get_colors
              Fixtures.float_repr _ _ _ _ _ _ H) as [_ [Hnd Hroots]].
  assert (H0 : NoDup (cr_visited (init true false))) by constructor.
  inversion Hroots as [| ? ? HR _]; subst.
  exists out, r'. split; [reflexivity |]. split; [exact H0 |].
  split; [exact (Hnd H0) |]. apply HR. vm_compute. reflexivity.
Defined.

Lemma render_result_shape_witness :
  exists out r' rest b,
    run (init false false) (Some [R]) diamond
      (with_min options (Some 1%float)) = Ok (out, r')
    /\ encode_utf8 (rest) = Ok b
    /\ out = Encoded b.
Proof.
  destruct (run (init false false) (Some [R]) diamond
              (with_min options (Some 1%float)))
    as [[out r'] |] eqn:H; [| vm_compute in H; discriminate H].
  destruct (render_result_shape Fixtures.version Fixtures.get_colors
              Fixtures.float_repr _ _ _ _ _ _ H) as [rest Hshape].
  cbv zeta in Hshape. cbn [cr_unicode init] in Hshape.
  destruct Hshape as [b [Hb Hout]].
  exists out, r', ([] ++ rest), b. split; [reflexivity |].
  split; [exact Hb | exact Hout].
Defined.

Lemma cell_of_In cols : forall row col c,
  cell_of cols row col = c -> c <> CNone -> In c row.
Proof.
  induction cols as [| c0 cols IH]; intros row col c H Hc.
  - cbn in H. congruence.
  - destruct row as [| v row]; [cbn in H; congruence |].
    cbn [cell_of] in H. destruct (str_eqb c0 col).
    + left. exact H.
    + right. now apply (IH row col).
Qed.

(** The strings of a table built from rows are those of the rows. *)
Lemma table_strings cols rows key col s :
  cells (table cols rows) key col = CStr s ->
  exists row, In row rows /\ In (CStr s) (snd row).
Proof.
  cbn [cells table]. intros H.
  destruct (find (fun r => (fst r =? k_node key)%Z) rows) as [row |] eqn:E;
    [| discriminate H].
  apply find_some in E. destruct E as [Hrow _].
  exists row. split; [exact Hrow |].
  apply (cell_of_In cols (snd row) col); [exact H | discriminate].
Qed.

Lemma no_escape_without_color_witness :
  exists out r',
    run (init false false) (Some [R]) diamond options = Ok (out, r')
    /\ cr_color (init false false) = false
    /\ plain Fixtures.version
    /\ plain_result out.
Proof.
  destruct (run (init false false) (Some [R]) diamond options)
    as [[out r'] |] eqn:H; [| vm_compute in H; discriminate H].
  assert (Hv : plain Fixtures.version).
  { intros Hin. vm_compute in Hin.
    repeat (destruct Hin as [Hin | Hin]; [discriminate Hin |]).
    exact Hin. }
  assert (Hrepr : forall x, plain (Fixtures.float_repr x))
    by (intros x; apply plain_fixed).
  assert (Hcells : forall key col s,
             cells diamond key col = CStr s -> plain s).
  { intros key col s Hc Hin. apply table_strings in Hc.
    destruct Hc as [row [Hrow Hs]]. cbn in Hrow.
    repeat (destruct Hrow as [<- | Hrow];
            [cbn in Hs;
             repeat (destruct Hs as [Hs | Hs];
                     [try discriminate Hs; inversion Hs; subst s;
                      vm_compute in Hin;
                      repeat (destruct Hin as [Hin | Hin];
                              [discriminate Hin |]);
                      exact Hin |]);
             exact Hs |]).
    exact Hrow. }
  exists out, r'. split; [reflexivity |]. split; [reflexivity |].
  split; [exact Hv |].
  exact (no_escape_without_color Fixtures.version Fixtures.get_colors
           Fixtures.float_repr (init false false) (Some [R]) diamond
           options out r' eq_refl Hv Hrepr Hcells H).
Defined.

Lemma visited_stays_within_cutoff_witness :
  exists out r',
    run (init true false) (Some [R]) diamond (with_depth options 2)
    = Ok (out, r')
    /\ cr_visited r' = [0; 1; 2]%Z
    /\ Forall (within_cutoff 2 (flat_map nodes_of [R])) (cr_visited r').
Proof.
  destruct (run (init true false) (Some [R]) diamond (with_depth options 2))
    as [[out r'] |] eqn:H; [| vm_compute in H; discriminate H].
  destruct (visited_stays_within_cutoff Fixtures.version
              Fixtures.get_colors Fixtures.float_repr _ _ _ _ _ _ H)
    as [added [Hadd Hall]].
  cbn [init cr_visited app] in Hadd. rewrite <- Hadd in Hall.
  exists out, r'. split; [reflexivity |]. split; [| exact Hall].
  vm_compute in H. apply ok_pair_inv in H. destruct H as [_ <-].
  reflexivity.
Defined.


End MoreExamples.
